(** * MISS_HIT style checker (mh_style.py): a shallow embedding

    The development follows [miss_hit/mh_style.py]: the rule classes of
    stages 1 and 2, [build_library], the token pass [stage_3_analysis]
    and the driver [MH_Style.process_wp].

    Text is modelled as [string] over 8-bit characters, read as ASCII.
    Python integers are [Z].  The message handler is the list of the
    calls made on it, in the order they are made. *)

From Stdlib Require Import ZArith List String Ascii Bool Lia DecimalString.
From stdpp Require Import base list.
Import ListNotations.

Local Open Scope Z_scope.
Local Open Scope string_scope.

(** ** Python string operations used by the checker *)

Module Py.

(** [len(s)] *)
Definition len (s : string) : Z := Z.of_nat (String.length s).

(** [str.isspace] on one ASCII character: tab, line feed, vertical tab,
    form feed, carriage return, the four separators 28..31, space. *)
Definition isspace (c : ascii) : bool :=
  let n := nat_of_ascii c in
  ((9 <=? n)%nat && (n <=? 13)%nat) || ((28 <=? n)%nat && (n <=? 32)%nat).

Definition isdigit (c : ascii) : bool :=
  let n := nat_of_ascii c in (48 <=? n)%nat && (n <=? 57)%nat.

Definition isupper (c : ascii) : bool :=
  let n := nat_of_ascii c in (65 <=? n)%nat && (n <=? 90)%nat.

Definition islower (c : ascii) : bool :=
  let n := nat_of_ascii c in (97 <=? n)%nat && (n <=? 122)%nat.

(** the character class [[a-zA-Z]] *)
Definition isalpha (c : ascii) : bool := isupper c || islower c.

Definition lower_char (c : ascii) : ascii :=
  if isupper c then ascii_of_nat (nat_of_ascii c + 32) else c.

(** [s.lower()] *)
Fixpoint lower (s : string) : string :=
  match s with
  | EmptyString => EmptyString
  | String c s' => String (lower_char c) (lower s')
  end.

(** [s.lstrip(chars)] for the character set [p] *)
Fixpoint lstrip_with (p : ascii -> bool) (s : string) : string :=
  match s with
  | EmptyString => EmptyString
  | String c s' => if p c then lstrip_with p s' else s
  end.

(** [s.rstrip(chars)] for the character set [p] *)
Fixpoint rstrip_with (p : ascii -> bool) (s : string) : string :=
  match s with
  | EmptyString => EmptyString
  | String c s' =>
      match rstrip_with p s' with
      | EmptyString => if p c then EmptyString else String c EmptyString
      | r => String c r
      end
  end.

Definition lstrip (s : string) : string := lstrip_with isspace s.
Definition rstrip (s : string) : string := rstrip_with isspace s.

(** [s.strip()] *)
Definition strip (s : string) : string := rstrip (lstrip s).

(** [s.lstrip(c)] where [c] is a one-character string *)
Definition lstrip_char (c : ascii) (s : string) : string :=
  lstrip_with (Ascii.eqb c) s.

(** [s.startswith(p)] *)
Fixpoint startswith (p s : string) : bool :=
  match p, s with
  | EmptyString, _ => true
  | String a p', String b s' => Ascii.eqb a b && startswith p' s'
  | String _ _, EmptyString => false
  end.

(** [sub in s] *)
Fixpoint contains (sub s : string) : bool :=
  startswith sub s ||
  match s with
  | EmptyString => false
  | String _ s' => contains sub s'
  end.

(** [s[-1]], [None] on the empty string (where Python raises) *)
Fixpoint last (s : string) : option ascii :=
  match s with
  | EmptyString => None
  | String c EmptyString => Some c
  | String _ s' => last s'
  end.

(** [s.endswith(c)] where [c] is a one-character string *)
Definition endswith_char (c : ascii) (s : string) : bool :=
  match last s with
  | Some d => Ascii.eqb c d
  | None => false
  end.

(** [c in s] for a character, and [s.index(c)] *)
Fixpoint contains_char (c : ascii) (s : string) : bool :=
  match s with
  | EmptyString => false
  | String d s' => Ascii.eqb c d || contains_char c s'
  end.

Fixpoint index_char (c : ascii) (s : string) : Z :=
  match s with
  | EmptyString => 0
  | String d s' => if Ascii.eqb c d then 0 else 1 + index_char c s'
  end.

(** [s[n:]] *)
Fixpoint drop (n : nat) (s : string) : string :=
  match n, s with
  | O, _ => s
  | S n', String _ s' => drop n' s'
  | S _, EmptyString => EmptyString
  end.

(** [s[:n]] *)
Fixpoint take (n : nat) (s : string) : string :=
  match n, s with
  | S n', String c s' => String c (take n' s')
  | _, _ => EmptyString
  end.

(** [s.split(c, 1)[1]]: what follows the first [c]; [None] when [c]
    does not occur (where Python raises [IndexError]) *)
Fixpoint after_first (c : ascii) (s : string) : option string :=
  match s with
  | EmptyString => None
  | String d s' => if Ascii.eqb c d then Some s' else after_first c s'
  end.

(** [c * n] *)
Fixpoint repeat_char (c : ascii) (n : nat) : string :=
  match n with
  | O => EmptyString
  | S n' => String c (repeat_char c n')
  end.

(** [sep.join(l)] *)
Fixpoint join (sep : string) (l : list string) : string :=
  match l with
  | [] => EmptyString
  | [x] => x
  | x :: l' => x ++ sep ++ join sep l'
  end.

(** [s.split("\n")]: the pieces between line feeds, a trailing empty
    piece included *)
Fixpoint split_newline (s : string) : list string :=
  match s with
  | EmptyString => [EmptyString]
  | String c s' =>
      if Ascii.eqb c "010"%char then EmptyString :: split_newline s'
      else match split_newline s' with
           | [] => [String c EmptyString]
           | l :: ls => String c l :: ls
           end
  end.

(** ["%u" % n] *)
Definition fmt_u (n : Z) : string := NilZero.string_of_int (Z.to_int n).

(** [x in l] for a list (or set) of strings *)
Definition mem (x : string) (l : list string) : bool :=
  existsb (String.eqb x) l.

End Py.

(** ** Regular expressions, matched the way Python's [re] does

    A backtracking matcher: alternatives are tried left to right, the
    quantifiers are greedy, and the first complete match wins.  A named
    group records the text it matched. *)

Module Re.

Inductive regex :=
| Chr (p : ascii -> bool)          (* one character of a class *)
| Eps
| Seq (r1 r2 : regex)
| Opt (r : regex)                  (* r? *)
| Star (r : regex)                 (* r* *)
| Group (name : string) (r : regex).

Definition captures := list (string * string).

(** the literal string [s] *)
Fixpoint Lit (s : string) : regex :=
  match s with
  | EmptyString => Eps
  | String c s' => Seq (Chr (Ascii.eqb c)) (Lit s')
  end.

(** r+ *)
Definition Plus (r : regex) : regex := Seq r (Star r).

(** [.] matches everything but a line feed; [\d] a digit *)
Definition Dot : regex := Chr (fun c => negb (Ascii.eqb c "010"%char)).
Definition Digit : regex := Chr Py.isdigit.
Definition Alpha : regex := Chr Py.isalpha.

Fixpoint run (r : regex) (s : string) (caps : captures)
         (k : string -> captures -> option captures) {struct r}
  : option captures :=
  match r with
  | Chr p =>
      match s with
      | String c s' => if p c then k s' caps else None
      | EmptyString => None
      end
  | Eps => k s caps
  | Seq r1 r2 => run r1 s caps (fun s' caps' => run r2 s' caps' k)
  | Opt r1 =>
      match run r1 s caps k with
      | Some res => Some res
      | None => k s caps
      end
  | Star r1 =>
      (fix loop (fuel : nat) (s : string) (caps : captures) {struct fuel}
         : option captures :=
         match fuel with
         | O => k s caps
         | S fuel' =>
             match run r1 s caps
                       (fun s' caps' =>
                          if (String.length s' <? String.length s)%nat
                          then loop fuel' s' caps' else None) with
             | Some res => Some res
             | None => k s caps
             end
         end) (S (String.length s)) s caps
  | Group name r1 =>
      run r1 s caps
          (fun s' caps' =>
             k s' ((name,
                    Py.take (String.length s - String.length s') s)
                     :: caps'))
  end.

(** [re.match(r, s)]: a match that starts at the first character *)
Definition match_ (r : regex) (s : string) : option captures :=
  run r s [] (fun _ caps => Some caps).

(** [re.search(r, s)]: the leftmost match *)
Fixpoint search (r : regex) (s : string) : option captures :=
  match match_ r s with
  | Some caps => Some caps
  | None =>
      match s with
      | EmptyString => None
      | String _ s' => search r s'
      end
  end.

(** [m.group(name)] *)
Fixpoint group (name : string) (caps : captures) : string :=
  match caps with
  | [] => EmptyString
  | (n, v) :: caps' => if String.eqb n name then v else group name caps'
  end.

End Re.

(** ** Locations, the message handler and the configuration

    [errors.Location], [errors.Message_Handler] and the [config] module
    are imported by mh_style.py and not part of it; they appear here as far
    as mh_style.py uses them. *)

(** A location as the lexer attaches it to a token and as the line rules
    build it: [Location(filename, line, col_start, col_end, context)]. *)
Record Location := mkLocation {
  filename : string;
  line : Z;
  col_start : Z;
  col_end : Z;
  loc_context : string                  (* the attribute [context] *)
}.

(** The location argument of a message: the three ways mh_style.py builds
    or obtains one. *)
Inductive Where :=
| At_file (filename : string)                 (* lexer.get_file_loc() *)
| At_line (filename : string) (line : Z)      (* Location(filename, line) *)
| At (loc : Location).                        (* a full location *)

(** One call on the message handler.  [fixed] is [None] where the call
    leaves the third argument of [style_issue] out. *)
Inductive Message (Token : Type) :=
| Style_issue (loc : Where) (message : string) (fixed : option bool)
| Error_msg (loc : Where) (message : string) (fatal : bool)
| Justification (token : Token).
Arguments Style_issue {Token} loc message fixed.
Arguments Error_msg {Token} loc message fatal.
Arguments Justification {Token} token.

(** The configuration dictionary [cfg].  [active] stands for
    [config.active(cfg, name)], which lives in the config module. *)
Record Config := mkConfig {
  active : string -> bool;
  file_length : Z;                      (* cfg["file_length"] *)
  line_length : Z;                      (* cfg["line_length"] *)
  tab_width : Z;                        (* cfg["tab_width"] *)
  copyright_entity : list string;       (* cfg["copyright_entity"] *)
  copyright_in_embedded_code : bool;    (* cfg["copyright_in_embedded_code"] *)
  octave : bool;                        (* cfg["octave"] *)
  ignore_pragmas : bool                 (* cfg["ignore_pragmas"] *)
}.

(** ** Tokens

    [m_lexer.MATLAB_Token] with its fix record, and the AST node a token is
    linked to, as far as mh_style.py reads and writes them. *)

(** The node behind [token.ast_link]: stage 3 only calls
    [causes_indentation()] and [get_indentation()] on it. *)
Record Node := mkNode {
  causes_indentation : bool;
  get_indentation : Z
}.

Module Token_Fix.

(** [token.fix]: the directives for the replayer, then the classifiers
    the parser computed. *)
Record t := mk {
  ensure_ws_before : bool;
  ensure_ws_after : bool;
  ensure_trim_before : bool;
  ensure_trim_after : bool;
  add_newline : bool;
  replace_with_newline : bool;
  delete : bool;
  correct_indent : option Z;
  unary_operator : bool;
  binary_operator : bool;
  statement_terminator : bool;
  flag_continuations : bool
}.

(** attribute assignments [fix.x = v] *)
Definition set_ensure_ws_before (v : bool) (f : t) : t :=
  mk v (ensure_ws_after f) (ensure_trim_before f) (ensure_trim_after f)
     (add_newline f) (replace_with_newline f) (delete f) (correct_indent f)
     (unary_operator f) (binary_operator f) (statement_terminator f)
     (flag_continuations f).
Definition set_ensure_ws_after (v : bool) (f : t) : t :=
  mk (ensure_ws_before f) v (ensure_trim_before f) (ensure_trim_after f)
     (add_newline f) (replace_with_newline f) (delete f) (correct_indent f)
     (unary_operator f) (binary_operator f) (statement_terminator f)
     (flag_continuations f).
Definition set_ensure_trim_before (v : bool) (f : t) : t :=
  mk (ensure_ws_before f) (ensure_ws_after f) v (ensure_trim_after f)
     (add_newline f) (replace_with_newline f) (delete f) (correct_indent f)
     (unary_operator f) (binary_operator f) (statement_terminator f)
     (flag_continuations f).
Definition set_ensure_trim_after (v : bool) (f : t) : t :=
  mk (ensure_ws_before f) (ensure_ws_after f) (ensure_trim_before f) v
     (add_newline f) (replace_with_newline f) (delete f) (correct_indent f)
     (unary_operator f) (binary_operator f) (statement_terminator f)
     (flag_continuations f).
Definition set_add_newline (v : bool) (f : t) : t :=
  mk (ensure_ws_before f) (ensure_ws_after f) (ensure_trim_before f)
     (ensure_trim_after f) v (replace_with_newline f) (delete f)
     (correct_indent f) (unary_operator f) (binary_operator f)
     (statement_terminator f) (flag_continuations f).
Definition set_replace_with_newline (v : bool) (f : t) : t :=
  mk (ensure_ws_before f) (ensure_ws_after f) (ensure_trim_before f)
     (ensure_trim_after f) (add_newline f) v (delete f)
     (correct_indent f) (unary_operator f) (binary_operator f)
     (statement_terminator f) (flag_continuations f).
Definition set_delete (v : bool) (f : t) : t :=
  mk (ensure_ws_before f) (ensure_ws_after f) (ensure_trim_before f)
     (ensure_trim_after f) (add_newline f) (replace_with_newline f) v
     (correct_indent f) (unary_operator f) (binary_operator f)
     (statement_terminator f) (flag_continuations f).
Definition set_correct_indent (v : option Z) (f : t) : t :=
  mk (ensure_ws_before f) (ensure_ws_after f) (ensure_trim_before f)
     (ensure_trim_after f) (add_newline f) (replace_with_newline f)
     (delete f) v (unary_operator f) (binary_operator f)
     (statement_terminator f) (flag_continuations f).

(** a fix record with nothing set *)
Definition empty : t :=
  mk false false false false false false false None
     false false false false.

End Token_Fix.

Record Token := mkToken {
  kind : string;
  value : string;
  raw_text : string;
  location : Location;
  first_in_line : bool;
  first_in_statement : bool;
  anonymous : bool;
  ast_link : option Node;
  block_comment : bool;
  fix_ : Token_Fix.t                    (* the attribute [fix] *)
}.

(** [token.fix = f] and [token.raw_text = s] *)
Definition set_fix (f : Token_Fix.t) (tok : Token) : Token :=
  mkToken (kind tok) (value tok) (raw_text tok) (location tok)
          (first_in_line tok) (first_in_statement tok) (anonymous tok)
          (ast_link tok) (block_comment tok) f.

Definition set_raw_text (s : string) (tok : Token) : Token :=
  mkToken (kind tok) (value tok) s (location tok)
          (first_in_line tok) (first_in_statement tok) (anonymous tok)
          (ast_link tok) (block_comment tok) (fix_ tok).

(** [m_lexer.Token_Buffer], as far as stage 3 uses it: the token list and
    the comment characters of the lexer's language mode. *)
Record Token_Buffer := mkToken_Buffer {
  tokens : list Token;
  comment_char : list ascii
}.

(** The message handler: the calls made on it, oldest first. *)
Definition Message_Handler := list (Message Token).

Definition style_issue (loc : Where) (message : string) (fixed : option bool)
           (mh : Message_Handler) : Message_Handler :=
  (mh ++ [Style_issue loc message fixed])%list.

Definition error (loc : Where) (message : string) (fatal : bool)
           (mh : Message_Handler) : Message_Handler :=
  (mh ++ [Error_msg loc message fatal])%list.

Definition register_justification (token : Token)
           (mh : Message_Handler) : Message_Handler :=
  (mh ++ [Justification token])%list.

(** ** Style rules of stages 1 and 2 *)

(** The attributes every [Style_Rule] instance carries. *)
Record Style_Rule := mkRule {
  name : string;
  autofix : bool;
  mandatory : bool
}.

(** [Style_Rule.__init__(name, autofix)] *)
Definition Style_Rule_init (name : string) (autofix : bool) : Style_Rule :=
  mkRule name autofix false.

(** A file rule: the base attributes and the method
    [apply(self, mh, cfg, filename, full_text, lines)]. *)
Record Style_Rule_File := mkFileRule {
  file_base : Style_Rule;
  file_apply : Style_Rule -> Message_Handler -> Config -> string -> string ->
               list string -> Message_Handler
}.

(** A line rule: the base attributes, the attribute [is_blank] that
    [Rule_Line_Blank_Lines] keeps between calls, and the method
    [apply(self, mh, cfg, filename, line_no, line)], which may assign
    [self.is_blank]. *)
Record Style_Rule_Line := mkLineRule {
  line_base : Style_Rule;
  is_blank : bool;
  line_apply : Style_Rule -> bool -> Message_Handler -> Config -> string ->
               Z -> string -> bool * Message_Handler
}.

(** [Style_Rule_File.__init__(name)] *)
Definition Style_Rule_File_init (name : string) : Style_Rule :=
  Style_Rule_init name false.

(** [lines[-1] == ""] *)
Definition last_line_empty (lines : list string) : bool :=
  match last lines with
  | Some l => String.eqb l ""
  | None => false
  end.

(** [full_text[-1] != "\n"] *)
Definition last_char_not_newline (full_text : string) : bool :=
  match Py.last full_text with
  | Some c => negb (Ascii.eqb c "010"%char)
  | None => false
  end.

Definition Rule_File_Length_apply (self : Style_Rule) (mh : Message_Handler)
           (cfg : Config) (filename full_text : string) (lines : list string)
  : Message_Handler :=
  if Z.of_nat (length lines) >? file_length cfg then
    style_issue (At_line filename (Z.of_nat (length lines)))
                ("file exceeds " ++ Py.fmt_u (file_length cfg) ++ " lines")
                (Some (autofix self)) mh
  else mh.

Definition Rule_File_Length : Style_Rule_File :=
  mkFileRule (Style_Rule_File_init "file_length") Rule_File_Length_apply.

Definition Rule_File_EOF_Lines_apply (self : Style_Rule)
           (mh : Message_Handler) (cfg : Config) (filename full_text : string)
           (lines : list string) : Message_Handler :=
  if (Z.of_nat (length lines) >=? 2) && last_line_empty lines then
    style_issue (At_line filename (Z.of_nat (length lines)))
                "trailing blank lines at end of file"
                (Some (autofix self)) mh
  else if negb (Z.eqb (Py.len full_text) 0) && last_char_not_newline full_text then
    style_issue (At_line filename (Z.of_nat (length lines)))
                "file should end with a new line"
                (Some (autofix self)) mh
  else mh.

Definition Rule_File_EOF_Lines : Style_Rule_File :=
  mkFileRule (mkRule "eof_newlines" true true) Rule_File_EOF_Lines_apply.

Definition Rule_Line_Length_apply (self : Style_Rule) (is_blank : bool)
           (mh : Message_Handler) (cfg : Config) (filename : string)
           (line_no : Z) (line : string) : bool * Message_Handler :=
  if Py.len line >? line_length cfg then
    (is_blank,
     style_issue (At (mkLocation filename line_no (line_length cfg)
                                 (Py.len line) line))
                 ("line exceeds " ++ Py.fmt_u (line_length cfg)
                                  ++ " characters")
                 (Some (autofix self)) mh)
  else (is_blank, mh).

Definition Rule_Line_Length : Style_Rule_Line :=
  mkLineRule (Style_Rule_init "line_length" false) false
             Rule_Line_Length_apply.

Definition Rule_Line_Blank_Lines_apply (self : Style_Rule) (is_blank : bool)
           (mh : Message_Handler) (cfg : Config) (filename : string)
           (line_no : Z) (line : string) : bool * Message_Handler :=
  if negb (Z.eqb (Py.len (Py.strip line)) 0) then (false, mh)
  else if is_blank then
    (is_blank,
     style_issue (At_line filename line_no)
                 "more than one consecutive blank line"
                 (Some (autofix self)) mh)
  else (true, mh).

Definition Rule_Line_Blank_Lines : Style_Rule_Line :=
  mkLineRule (mkRule "consecutive_blanks" true true) false
             Rule_Line_Blank_Lines_apply.

Definition Rule_Line_Tabs_apply (self : Style_Rule) (is_blank : bool)
           (mh : Message_Handler) (cfg : Config) (filename : string)
           (line_no : Z) (line : string) : bool * Message_Handler :=
  if Py.contains_char "009"%char line then
    (is_blank,
     style_issue (At (mkLocation filename line_no
                                 (Py.index_char "009"%char line)
                                 (Py.index_char "009"%char line) line))
                 "tab is not allowed"
                 (Some (autofix self)) mh)
  else (is_blank, mh).

Definition Rule_Line_Tabs : Style_Rule_Line :=
  mkLineRule (mkRule "tabs" true true) false Rule_Line_Tabs_apply.

Definition Rule_Line_Trailing_Whitesapce_apply (self : Style_Rule)
           (is_blank : bool) (mh : Message_Handler) (cfg : Config)
           (filename : string) (line_no : Z) (line : string)
  : bool * Message_Handler :=
  if Py.endswith_char " "%char line then
    if Z.eqb (Py.len (Py.strip line)) 0 then
      (is_blank,
       style_issue (At_line filename line_no)
                   "whitespace on blank line"
                   (Some (autofix self)) mh)
    else
      (is_blank,
       style_issue (At (mkLocation filename line_no
                                   (Py.len (Py.rstrip line))
                                   (Py.len line) line))
                   "trailing whitespace"
                   (Some (autofix self)) mh)
  else (is_blank, mh).

Definition Rule_Line_Trailing_Whitesapce : Style_Rule_Line :=
  mkLineRule (mkRule "trailing_whitespace" true true) false
             Rule_Line_Trailing_Whitesapce_apply.

(** [rule.apply(...)] on an instance *)
Definition apply_file (rule : Style_Rule_File) (mh : Message_Handler)
           (cfg : Config) (filename full_text : string) (lines : list string)
  : Message_Handler :=
  file_apply rule (file_base rule) mh cfg filename full_text lines.

Definition apply_line (rule : Style_Rule_Line) (mh : Message_Handler)
           (cfg : Config) (filename : string) (line_no : Z) (line : string)
  : Style_Rule_Line * Message_Handler :=
  let '(b, mh') :=
    line_apply rule (line_base rule) (is_blank rule) mh cfg filename
               line_no line in
  (mkLineRule (line_base rule) b (line_apply rule), mh').

(** ** The rule registry and the rule library *)

(** The dictionary of rules, by kind.  A rule class is represented by the
    instance its constructor builds. *)
Record Rule_Set := mkRule_Set {
  on_file : list Style_Rule_File;
  on_line : list Style_Rule_Line;
  on_token : list Style_Rule
}.

(** [get_rules()]: the leaf classes below [Style_Rule], in the order
    [__subclasses__] lists them, which is the order of definition. *)
Definition get_rules : Rule_Set :=
  mkRule_Set [Rule_File_Length; Rule_File_EOF_Lines]
             [Rule_Line_Length; Rule_Line_Blank_Lines; Rule_Line_Tabs;
              Rule_Line_Trailing_Whitesapce]
             [].

(** The inner loop of [build_library] for one kind: [lib] is [lib[kind]]
    so far. *)
Fixpoint build_kind {R : Type} (base : R -> Style_Rule) (cfg : Config)
         (rules : list R) (lib : list R) : list R :=
  match rules with
  | [] => lib
  | rule :: rules' =>
      let inst := rule in
      build_kind base cfg rules'
                 (if mandatory (base inst) || active cfg (name (base inst))
                  then (lib ++ [inst])%list else lib)
  end.

Definition build_library (cfg : Config) (rules : Rule_Set) : Rule_Set :=
  mkRule_Set (build_kind file_base cfg (on_file rules) [])
             (build_kind line_base cfg (on_line rules) [])
             (build_kind (fun r => r) cfg (on_token rules) []).

(** ** Stage 3: the token pass *)

(** [COPYRIGHT_REGEX]: an optional [(c) ], the word [Copyright] and a
    space, an optional four-digit year with a dash, a four-digit year, any
    number of spaces, and the group [org] that takes the rest of the
    line. *)
Definition COPYRIGHT_REGEX : Re.regex :=
  let dddd (r : Re.regex) :=
    Re.Seq Re.Digit (Re.Seq Re.Digit (Re.Seq Re.Digit (Re.Seq Re.Digit r))) in
  Re.Seq (Re.Opt (Re.Lit "(c) "))
  (Re.Seq (Re.Lit "Copyright ")
  (Re.Seq (Re.Opt (dddd (Re.Lit "-")))
  (dddd
  (Re.Seq (Re.Star (Re.Lit " "))
          (Re.Group "org" (Re.Star Re.Dot)))))).

(** The patterns of the comment rule; they are used with [re.match], which
    anchors them at the first character as their [^] does. *)
(** [^%#[a-zA-Z]] *)
Definition PRAGMA_REGEX : Re.regex := Re.Seq (Re.Lit "%#") Re.Alpha.
(** [^%# +[a-zA-Z]] *)
Definition PRAGMA_SPACE_REGEX : Re.regex :=
  Re.Seq (Re.Lit "%#") (Re.Seq (Re.Plus (Re.Lit " ")) Re.Alpha).
(** [^% +#[a-zA-Z]] *)
Definition SPACE_PRAGMA_REGEX : Re.regex :=
  Re.Seq (Re.Lit "%") (Re.Seq (Re.Plus (Re.Lit " "))
                              (Re.Seq (Re.Lit "#") Re.Alpha)).

Definition KEYWORDS_WITH_WS : list string :=
  ["case"; "catch"; "classdef"; "elseif"; "for"; "function"; "global";
   "if"; "parfor"; "persistent"; "switch"; "while";
   "properties"; "methods"; "events"].

(** The exceptions the token pass can raise on a token buffer that the
    lexer would not build: [raw_text[0]] on an empty text, and an
    attribute read on [None]. *)
Inductive Exception := IndexError | AttributeError.

(** The local variables of [stage_3_analysis] that live across
    iterations.  [copyright_token] and [statement_start_token] refer to
    tokens of the buffer; only attributes that stage 3 never assigns
    (location, kind, value, ast_link) are read through them, so the token
    as it was when the reference was taken stands for the reference. *)
Record Copyright_Vars := mkCopyright_Vars {
  in_copyright_notice : bool;
  company_copyright_found : bool;
  generic_copyright_found : bool;
  copyright_token : option Token;
  copyright_notice : list string
}.

Record Indent_Vars := mkIndent_Vars {
  statement_start_token : option Token;
  current_indent : Z;
  enclosing_ast : option Node
}.

(** What the token pass reads and writes: the message handler, the tokens
    of the buffer (their fix records and raw texts are assigned in place)
    and the local variables. *)
Record State := mkState {
  st_mh : Message_Handler;
  st_tokens : list Token;
  st_copyright : Copyright_Vars;
  st_indent : Indent_Vars
}.

Definition with_mh (mh : Message_Handler) (st : State) : State :=
  mkState mh (st_tokens st) (st_copyright st) (st_indent st).
Definition with_tokens (l : list Token) (st : State) : State :=
  mkState (st_mh st) l (st_copyright st) (st_indent st).
Definition with_copyright (c : Copyright_Vars) (st : State) : State :=
  mkState (st_mh st) (st_tokens st) c (st_indent st).
Definition with_indent (i : Indent_Vars) (st : State) : State :=
  mkState (st_mh st) (st_tokens st) (st_copyright st) i.

(** How a run of the pass, or of a part of it, ends: it falls through, or
    an exception leaves it with the effects made so far in place. *)
Inductive Outcome :=
| Returned (st : State)
| Raised (e : Exception) (st : State).

Definition state_of (o : Outcome) : State :=
  match o with
  | Returned st => st
  | Raised _ st => st
  end.

Definition bind (o : Outcome) (f : State -> Outcome) : Outcome :=
  match o with
  | Returned st => f st
  | Raised e st => Raised e st
  end.

(** [mh.style_issue(location, message, fixed)] *)
Definition issue (loc : Location) (message : string) (fixed : option bool)
           (st : State) : State :=
  with_mh (style_issue (At loc) message fixed (st_mh st)) st.

(** [tokens[n].fix.x = v], given as the update [f] of the fix record *)
Definition modify_fix (n : nat) (f : Token_Fix.t -> Token_Fix.t)
           (st : State) : State :=
  with_tokens (alter (fun tok => set_fix (f (fix_ tok)) tok) n (st_tokens st))
              st.

(** [tokens[n].raw_text = s] *)
Definition modify_raw_text (n : nat) (s : string) (st : State) : State :=
  with_tokens (alter (set_raw_text s) n (st_tokens st)) st.

(** The neighbours of the token at hand and the gaps to them, as the top
    of the loop body computes them. *)
Record Neighbours := mkNeighbours {
  prev_token : option Token;
  next_token : option Token;
  prev_in_line : option Token;
  ws_before : option Z;
  next_in_line : option Token;
  ws_after : option Z
}.

Definition neighbours (tokens : list Token) (n : nat) (token : Token)
  : Neighbours :=
  let prev_token := match n with O => None | S p => tokens !! p end in
  let next_token := tokens !! S n in
  let '(prev_in_line, ws_before) :=
    match prev_token with
    | Some p =>
        if Z.eqb (line (location p)) (line (location token)) then
          (Some p,
           Some (col_start (location token) - col_end (location p) - 1))
        else (None, None)
    | None => (None, None)
    end in
  let '(next_in_line, ws_after) :=
    match next_token with
    | Some nx =>
        if Z.eqb (line (location nx)) (line (location token)) then
          if String.eqb (kind nx) "NEWLINE" then (None, None)
          else
            (Some nx,
             Some (col_start (location nx) - col_end (location token) - 1))
        else (None, None)
    | None => (None, None)
    end in
  mkNeighbours prev_token next_token prev_in_line ws_before
               next_in_line ws_after.

(** Truth value of an optional object. *)
Definition present {A : Type} (o : option A) : bool :=
  match o with Some _ => true | None => false end.

(** [ws == 0] and [ws > 0]; the source evaluates them only behind the test
    that the neighbour is present, so that [ws] is a number. *)
Definition eq0 (ws : option Z) : bool :=
  match ws with Some z => Z.eqb z 0 | None => false end.
Definition gt0 (ws : option Z) : bool :=
  match ws with Some z => Z.gtb z 0 | None => false end.

(** Keep track of statement starters (lines 401-424). *)
Definition track_statement (token : Token) (iv : Indent_Vars) : Indent_Vars :=
  if first_in_statement token then
    let enclosing :=
      match statement_start_token iv with
      | Some sst =>
          if String.eqb (kind sst) "KEYWORD" && String.eqb (value sst) "end"
          then None
          else
            match ast_link sst with
            | Some node =>
                if causes_indentation node then Some node
                else enclosing_ast iv
            | None => enclosing_ast iv
            end
      | None => enclosing_ast iv
      end in
    mkIndent_Vars (Some token) (current_indent iv) enclosing
  else iv.

(** Recognize justifications (lines 427-429). *)
Definition recognise_justification (token : Token) (st : State) : State :=
  if String.eqb (kind token) "COMMENT"
     || String.eqb (kind token) "CONTINUATION" then
    if Py.contains "mh:ignore_style" (value token) then
      with_mh (register_justification token (st_mh st)) st
    else st
  else st.

(** The copyright header check (lines 436-489). *)

(** The fallback of line 446: the comment names a configured entity, or
    contains [(c)] or [copyright], case-insensitively. *)
Definition looks_like_copyright (cfg : Config) (value : string) : bool :=
  existsb (fun org => Py.contains (Py.lower org) (Py.lower value))
          (copyright_entity cfg)
  || existsb (fun substr => Py.contains substr (Py.lower value))
             ["(c)"; "copyright"].

Definition copyright_comment (cfg : Config) (token : Token)
           (cv : Copyright_Vars) : Copyright_Vars :=
  let cv :=
    match Re.search COPYRIGHT_REGEX (value token) with
    | Some m =>
        mkCopyright_Vars
          (in_copyright_notice cv)
          (if Py.mem (Py.strip (Re.group "org" m)) (copyright_entity cfg)
           then true else company_copyright_found cv)
          true
          (Some token)
          (copyright_notice cv)
    | None =>
        match copyright_token cv with
        | None =>
            if looks_like_copyright cfg (value token) then
              mkCopyright_Vars
                (in_copyright_notice cv) (company_copyright_found cv)
                (generic_copyright_found cv) (Some token)
                (copyright_notice cv)
            else cv
        | Some _ => cv
        end
    end in
  mkCopyright_Vars
    (in_copyright_notice cv) (company_copyright_found cv)
    (generic_copyright_found cv) (copyright_token cv)
    (copyright_notice cv ++ [value token])%list.

Definition end_of_header (cv : Copyright_Vars) : Copyright_Vars :=
  mkCopyright_Vars false (company_copyright_found cv)
                   (generic_copyright_found cv) (copyright_token cv)
                   (copyright_notice cv).

Definition copyright_check (cfg : Config) (token : Token) (st : State)
  : Outcome :=
  let cv := st_copyright st in
  if in_copyright_notice cv then
    if String.eqb (kind token) "COMMENT" then
      Returned (with_copyright (copyright_comment cfg token cv) st)
    else
      let st := with_copyright (end_of_header cv) st in
      if Z.eqb (Z.of_nat (length (copyright_notice cv))) 0 then
        Returned
          (issue (location token)
                 "file does not appear to contain any copyright header"
                 None st)
      else if company_copyright_found cv then Returned st
      else if generic_copyright_found cv then
        match copyright_entity cfg with
        | _ :: _ =>
            match copyright_token cv with
            | Some ct =>
                Returned
                  (issue (location ct)
                         ("Copyright does not mention one of "
                            ++ Py.join " or " (copyright_entity cfg))
                         None st)
            | None => Raised AttributeError st
            end
        | [] => Returned st
        end
      else
        match copyright_token cv with
        | Some ct =>
            Returned
              (issue (location ct) "Copyright notice not in right format"
                     None st)
        | None =>
            Returned
              (issue (location token) "No copyright notice found in header"
                     None st)
        end
  else Returned st.

(** The rules by token kind (lines 495-749), one definition per branch of
    the chain.  [n] is the index of [token] in the buffer and [nb] its
    neighbours. *)

Definition check_comma (cfg : Config) (n : nat) (token : Token)
           (nb : Neighbours) (st : State) : State :=
  if active cfg "whitespace_comma" then
    let st := modify_fix n (Token_Fix.set_ensure_trim_before true) st in
    let st := modify_fix n (Token_Fix.set_ensure_ws_after true) st in
    if (present (next_in_line nb) && eq0 (ws_after nb))
       || (present (prev_in_line nb) && gt0 (ws_before nb)) then
      issue (location token)
            "comma cannot be preceeded by whitespace and must be followed by whitespace"
            (Some true) st
    else st
  else st.

Definition kind_is (k : string) (o : option Token) : bool :=
  match o with
  | Some tok => String.eqb (kind tok) k
  | None => false
  end.

Definition check_colon (cfg : Config) (n : nat) (token : Token)
           (nb : Neighbours) (st : State) : State :=
  if active cfg "whitespace_colon" then
    if kind_is "COMMA" (prev_in_line nb) then st
    else if kind_is "CONTINUATION" (next_in_line nb) then
      if present (prev_in_line nb) && gt0 (ws_before nb) then
        let st := modify_fix n (Token_Fix.set_ensure_trim_before true) st in
        issue (location token) "no whitespace before colon" (Some true) st
      else st
    else if (present (prev_in_line nb) && gt0 (ws_before nb))
            || (present (next_in_line nb) && gt0 (ws_after nb)) then
      let st := modify_fix n (Token_Fix.set_ensure_trim_before true) st in
      let st := modify_fix n (Token_Fix.set_ensure_trim_after true) st in
      issue (location token) "no whitespace around colon allowed"
            (Some true) st
    else st
  else st.

Definition check_assignment (cfg : Config) (n : nat) (token : Token)
           (nb : Neighbours) (st : State) : State :=
  if active cfg "whitespace_assignment" then
    let st := modify_fix n (Token_Fix.set_ensure_ws_before true) st in
    let st := modify_fix n (Token_Fix.set_ensure_ws_after true) st in
    if present (prev_in_line nb) && eq0 (ws_before nb) then
      issue (location token) "= must be preceeded by whitespace"
            (Some true) st
    else if present (next_in_line nb) && eq0 (ws_after nb) then
      issue (location token) "= must be succeeded by whitespace"
            (Some true) st
    else st
  else st.

Definition check_bra (cfg : Config) (n : nat) (token : Token)
           (nb : Neighbours) (st : State) : State :=
  if active cfg "whitespace_brackets"
     && present (next_in_line nb) && gt0 (ws_after nb)
     && negb (kind_is "CONTINUATION" (next_in_line nb)) then
    let st := issue (location token)
                    (raw_text token ++ " must not be followed by whitespace")
                    (Some true) st in
    modify_fix n (Token_Fix.set_ensure_trim_after true) st
  else st.

Definition check_ket (cfg : Config) (n : nat) (token : Token)
           (nb : Neighbours) (st : State) : State :=
  if active cfg "whitespace_brackets"
     && present (prev_in_line nb) && gt0 (ws_before nb) then
    let st := issue (location token)
                    (raw_text token ++ " must not be preceeded by whitespace")
                    (Some true) st in
    modify_fix n (Token_Fix.set_ensure_trim_before true) st
  else st.

Definition check_keyword (cfg : Config) (n : nat) (token : Token)
           (nb : Neighbours) (st : State) : State :=
  if active cfg "whitespace_keywords"
     && present (next_in_line nb) && eq0 (ws_after nb) then
    let st := issue (location token)
                    "keyword must be succeeded by whitespace"
                    (Some true) st in
    modify_fix n (Token_Fix.set_ensure_ws_after true) st
  else st.

(** The strings [cc + cb] for [cc] in [tbuf.comment_char] and [cb] in
    the two braces. *)
Definition block_comment_indicators (comment_char : list ascii)
  : list string :=
  flat_map (fun cc => [String cc "{"; String cc "}"]) comment_char.

Definition check_comment (cfg : Config) (comment_chars : list ascii)
           (n : nat) (token : Token) (nb : Neighbours) (st : State)
  : Outcome :=
  if active cfg "whitespace_comments" then
    match raw_text token with
    | EmptyString => Raised IndexError st
    | String comment_char _ =>
        let comment_body := Py.lstrip_char comment_char (raw_text token) in
        let body_checked :=
          if present (Re.match_ PRAGMA_REGEX (raw_text token)) then
            Returned st
          else if Py.startswith "%|" (raw_text token) then Returned st
          else if block_comment token then Returned st
          else if Py.mem (Py.strip (raw_text token))
                         (block_comment_indicators comment_chars) then
            Returned st
          else if present (Re.match_ PRAGMA_SPACE_REGEX (raw_text token)) then
            let st :=
              issue (location token)
                    "MATLAB pragma must not contain whitespace between %# and the pragma"
                    (Some true) st in
            Returned
              (modify_raw_text
                 n ("%#" ++ Py.strip (Py.drop 2 (raw_text token))) st)
          else if present (Re.match_ SPACE_PRAGMA_REGEX (raw_text token)) then
            let st :=
              issue (location token)
                    "MATLAB pragma must not contain whitespace between % and the pragma"
                    (Some true) st in
            match Py.after_first "#"%char (raw_text token) with
            | Some rest => Returned (modify_raw_text n ("%#" ++ rest) st)
            | None => Raised IndexError st
            end
          else if negb (Z.eqb (Py.len comment_body) 0)
                  && negb (Py.startswith " " comment_body) then
            let st :=
              issue (location token)
                    ("comment body must be separated with whitespace from the starting "
                       ++ String comment_char "")
                    (Some true) st in
            Returned
              (modify_raw_text
                 n
                 (Py.repeat_char
                    comment_char
                    (String.length (raw_text token)
                     - String.length comment_body)
                    ++ " " ++ comment_body)
                 st)
          else Returned st in
        bind body_checked
             (fun st =>
                if present (prev_in_line nb) && eq0 (ws_before nb) then
                  let st :=
                    issue (location token)
                          "comment must be preceeded by whitespace"
                          (Some true) st in
                  Returned
                    (modify_fix n (Token_Fix.set_ensure_ws_before true) st)
                else Returned st)
    end
  else Returned st.

Definition check_continuation (cfg : Config) (n : nat) (token : Token)
           (nb : Neighbours) (st : State) : State :=
  let st :=
    if active cfg "whitespace_continuation"
       && present (prev_in_line nb) && eq0 (ws_before nb) then
      let st := issue (location token)
                      "continuation must be preceeded by whitespace"
                      (Some true) st in
      modify_fix n (Token_Fix.set_ensure_ws_before true) st
    else st in
  let st :=
    match next_token nb with
    | Some nx =>
        if active cfg "operator_after_continuation"
           && first_in_line nx
           && String.eqb (kind nx) "OPERATOR"
           && Token_Fix.binary_operator (fix_ nx) then
          issue (location nx)
                "continuations should not start with binary operators"
                None st
        else st
    | None => st
    end in
  if active cfg "useless_continuation" then
    if kind_is "NEWLINE" (next_token nb) || kind_is "COMMENT" (next_token nb)
    then
      let st := issue (location token) "useless line continuation"
                      (Some true) st in
      modify_fix n (Token_Fix.set_replace_with_newline true) st
    else
      match prev_token nb with
      | Some p =>
          if Token_Fix.statement_terminator (fix_ p) then
            let st := issue (location token) "useless line continuation"
                            (Some true) st in
            modify_fix n (Token_Fix.set_delete true) st
          else st
      | None => st
      end
  else st.

(** The operator rule.  The [implicit_shortcircuit] test that follows it in
    the source guards a body that is [pass]; it has no effect. *)
Definition check_operator (cfg : Config) (n : nat) (token : Token)
           (nb : Neighbours) (st : State) : State :=
  let suffix := Py.mem (value token) [".'"; "'"] in
  if negb (active cfg "operator_whitespace") then st
  else if Token_Fix.unary_operator (fix_ token) then
    if (present (prev_in_line nb) && gt0 (ws_before nb)) && suffix then
      let st := issue (location token)
                      "suffix operator must not be preceeded by whitespace"
                      (Some true) st in
      modify_fix n (Token_Fix.set_ensure_trim_before true) st
    else if (present (next_in_line nb) && gt0 (ws_after nb))
            && negb suffix then
      let st := issue (location token)
                      "unary operator must not be followed by whitespace"
                      (Some true) st in
      modify_fix n (Token_Fix.set_ensure_trim_after true) st
    else st
  else if Token_Fix.binary_operator (fix_ token) then
    if Py.mem (value token) [".^"; "^"] then
      if (present (prev_in_line nb) && gt0 (ws_before nb))
         || (present (next_in_line nb) && gt0 (ws_after nb)) then
        let st :=
          issue (location token)
                "power binary operator must not be surrounded by whitespace"
                (Some true) st in
        let st := modify_fix n (Token_Fix.set_ensure_trim_before true) st in
        modify_fix n (Token_Fix.set_ensure_trim_after true) st
      else st
    else
      if (present (prev_in_line nb) && eq0 (ws_before nb))
         || (present (next_in_line nb) && eq0 (ws_after nb)) then
        let st :=
          issue (location token)
                "non power binary operator must be surrounded by whitespace"
                (Some true) st in
        let st := modify_fix n (Token_Fix.set_ensure_ws_before true) st in
        modify_fix n (Token_Fix.set_ensure_ws_after true) st
      else st
  else st.

Definition check_annotation (cfg : Config) (n : nat) (token : Token)
           (nb : Neighbours) (st : State) : State :=
  if active cfg "annotation_whitespace" then
    let st := modify_fix n (Token_Fix.set_ensure_ws_after true) st in
    if present (next_in_line nb) && eq0 (ws_after nb) then
      issue (location token)
            "annotation indication must be succeeded by whitespace"
            (Some true) st
    else st
  else st.

Definition check_newline (cfg : Config) (n : nat) (token : Token)
           (st : State) : State :=
  if Nat.eqb n 0 && active cfg "no_starting_newline" then
    let st := issue (location token) "files should not start with a newline"
                    (Some true) st in
    modify_fix n (Token_Fix.set_delete true) st
  else st.

(** The chain [if token.kind == ... elif ...] of lines 495-749. *)
Definition token_rules (cfg : Config) (comment_chars : list ascii)
           (n : nat) (token : Token) (nb : Neighbours) (st : State)
  : Outcome :=
  let k := kind token in
  if String.eqb k "COMMA" then Returned (check_comma cfg n token nb st)
  else if String.eqb k "COLON" then Returned (check_colon cfg n token nb st)
  else if String.eqb k "ASSIGNMENT" then
    Returned (check_assignment cfg n token nb st)
  else if Py.mem k ["BRA"; "A_BRA"; "M_BRA"] then
    Returned (check_bra cfg n token nb st)
  else if Py.mem k ["KET"; "A_KET"; "M_KET"] then
    Returned (check_ket cfg n token nb st)
  else if String.eqb k "KEYWORD" && Py.mem (value token) KEYWORDS_WITH_WS then
    Returned (check_keyword cfg n token nb st)
  else if String.eqb k "COMMENT" then
    check_comment cfg comment_chars n token nb st
  else if String.eqb k "CONTINUATION" then
    Returned (check_continuation cfg n token nb st)
  else if String.eqb k "OPERATOR" then
    Returned (check_operator cfg n token nb st)
  else if String.eqb k "ANNOTATION" then
    Returned (check_annotation cfg n token nb st)
  else if String.eqb k "NEWLINE" then Returned (check_newline cfg n token st)
  else Returned st.

(** Check some specific problems with continuations (lines 752-761). *)
Definition dangerous_continuation_check (cfg : Config) (n : nat)
           (token : Token) (nb : Neighbours) (st : State) : State :=
  match next_in_line nb with
  | Some nx =>
      if Token_Fix.flag_continuations (fix_ token)
         && String.eqb (kind nx) "CONTINUATION" then
        let st := modify_fix n (Token_Fix.set_add_newline false) st in
        let '(st, fixed) :=
          if active cfg "dangerous_continuation" then
            (modify_fix (S n) (Token_Fix.set_replace_with_newline true) st,
             true)
          else (st, false) in
        issue (location nx) "this continuation is dangerously misleading"
              (Some fixed) st
      else st
  | None => st
  end.

(** Complain about indentation (lines 764-797). *)
Definition indentation_check (cfg : Config) (n : nat) (token : Token)
           (st : State) : Outcome :=
  if active cfg "indentation" && negb (String.eqb (kind token) "NEWLINE") then
    if first_in_line token && negb (block_comment token) then
      let iv := st_indent st in
      let located :=
        if first_in_statement token then
          let current_indent :=
            match ast_link token with
            | Some node => get_indentation node
            | None =>
                match enclosing_ast iv with
                | Some node => get_indentation node + 1
                | None => current_indent iv
                end
            end in
          Some (current_indent, 0)
        else
          match statement_start_token iv with
          | Some sst =>
              let offset :=
                col_start (location token) - col_start (location sst) in
              Some (current_indent iv,
                    if Z.leb offset 0 then tab_width cfg / 2 else offset)
          | None => None
          end in
      match located with
      | None => Raised AttributeError st
      | Some (current_indent, offset) =>
          let st :=
            with_indent
              (mkIndent_Vars (statement_start_token iv) current_indent
                             (enclosing_ast iv)) st in
          let correct_spaces := tab_width cfg * current_indent + offset in
          let st :=
            modify_fix n (Token_Fix.set_correct_indent (Some correct_spaces))
                       st in
          if negb (Z.eqb (col_start (location token)) correct_spaces) then
            Returned
              (issue (location token)
                     ("indentation not correct, should be "
                        ++ Py.fmt_u correct_spaces ++ " spaces, not "
                        ++ Py.fmt_u (col_start (location token)))
                     (Some true) st)
          else Returned st
      end
    else Returned st
  else Returned st.

(** One turn of the loop over [enumerate(tbuf.tokens)]. *)
Definition iteration (cfg : Config) (comment_chars : list ascii) (n : nat)
           (st : State) : Outcome :=
  match st_tokens st !! n with
  | None => Returned st
  | Some token =>
      let nb := neighbours (st_tokens st) n token in
      let st := with_indent (track_statement token (st_indent st)) st in
      let st := recognise_justification token st in
      (* Don't ever check anonymous tokens *)
      if anonymous token then Returned st
      else
        bind (copyright_check cfg token st) (fun st =>
        bind (token_rules cfg comment_chars n token nb st) (fun st =>
        indentation_check cfg n token
          (dangerous_continuation_check cfg n token nb st)))
  end.

(** The loop, over the indices [ns] still to visit. *)
Fixpoint iterations (cfg : Config) (comment_chars : list ascii)
         (ns : list nat) (st : State) : Outcome :=
  match ns with
  | [] => Returned st
  | n :: ns' =>
      bind (iteration cfg comment_chars n st)
           (iterations cfg comment_chars ns')
  end.

Definition initial_state (mh : Message_Handler) (cfg : Config)
           (tbuf : Token_Buffer) (is_embedded : bool) : State :=
  mkState mh (tokens tbuf)
          (mkCopyright_Vars
             (active cfg "copyright_notice"
              && (negb is_embedded || copyright_in_embedded_code cfg))
             false false None [])
          (mkIndent_Vars None 0 None).

Definition stage_3_analysis (mh : Message_Handler) (cfg : Config)
           (tbuf : Token_Buffer) (is_embedded : bool) : Outcome :=
  iterations cfg (comment_char tbuf) (seq 0 (length (tokens tbuf)))
             (initial_state mh cfg tbuf is_embedded).

(** ** The driver: [MH_Style.process_wp] *)

(** The collaborators of [process_wp] that other modules define: the lexer,
    the token buffer constructor with its replayer, the parser and the
    debugging aids.  A constructor or call that can raise [errors.Error]
    returns an option or a success flag; what it reports goes to the
    message handler it is given. *)
Class Frontend := {
  Lexer : Type;
  Parse_Tree : Type;
  (* MATLAB_Lexer(mh, content, filename, blockname) *)
  MATLAB_Lexer : Message_Handler -> string -> string -> option string -> Lexer;
  lexer_text : Lexer -> string;                     (* lexer.text *)
  lexer_filename : Lexer -> string;                 (* lexer.filename *)
  lexer_context_line : Lexer -> list string;        (* lexer.context_line *)
  set_octave_mode : Lexer -> Lexer;
  set_process_pragmas : bool -> Lexer -> Lexer;     (* lexer.process_pragmas = b *)
  correct_tabs : Z -> Lexer -> Lexer;
  get_file_loc : Lexer -> Where;
  (* Token_Buffer(lexer, cfg); None when it raises Error *)
  new_Token_Buffer : Message_Handler -> Lexer -> Config ->
                     Message_Handler * option Token_Buffer;
  (* MATLAB_Parser(mh, tbuf, cfg).parse_file(): the handler, the buffer with
     the links and classifiers the parser sets, the tree unless it raises *)
  parse_file : Message_Handler -> Token_Buffer -> Config ->
               Message_Handler * Token_Buffer * option Parse_Tree;
  (* parse_tree.sty_check_naming(mh, cfg); false when it raises Error *)
  sty_check_naming : Parse_Tree -> Message_Handler -> Config ->
                     Message_Handler * bool;
  (* tbuf.debug_validate_links(); false when it raises Error *)
  debug_validate_links : Token_Buffer -> bool;
  (* parse_tree.pp_node(fd): the strings it writes *)
  pp_node : Parse_Tree -> list string;
  (* g_cfg.debug_cfg(parse_tree, mh) *)
  debug_cfg : Parse_Tree -> Message_Handler -> Message_Handler;
  (* tbuf.replay() *)
  replay : Token_Buffer -> string
}.

(** The work package, as far as [process_wp] reads it. *)
Record Work_Package := mkWork_Package {
  wp_cfg : Config;                      (* wp.cfg *)
  wp_filename : string;                 (* wp.filename *)
  wp_blockname : option string;         (* wp.blockname *)
  wp_content : string;                  (* wp.get_content() *)
  wp_mh : Message_Handler;              (* wp.mh *)
  opt_fix : bool;                       (* wp.options.fix *)
  opt_debug_validate_links : bool;      (* wp.options.debug_validate_links *)
  opt_debug_cfg : bool;                 (* wp.options.debug_cfg *)
  rule_set : Rule_Set;                  (* wp.extra_options["rule_set"] *)
  fd_tree : bool;                       (* wp.extra_options["fd_tree"] is a file *)
  wp_is_embedded : bool                 (* isinstance(wp, Embedded_MATLAB_WP) *)
}.

(** What [process_wp] leaves behind: the message handler, what went to the
    tree dump, and the texts handed to [wp.write_modified]. *)
Record Effects := mkEffects {
  eff_mh : Message_Handler;
  eff_tree_dump : list string;
  eff_written : list string
}.

Inductive Result :=
| MH_Style_Result (eff : Effects)                 (* the call returns *)
| Propagated (e : Exception) (eff : Effects).     (* stage 3 raised *)

(** Stage 1: [for rule in rule_lib["on_file"]: rule.apply(...)] *)
Fixpoint stage_1 (rules : list Style_Rule_File) (mh : Message_Handler)
         (cfg : Config) (filename full_text : string) (lines : list string)
  : Message_Handler :=
  match rules with
  | [] => mh
  | rule :: rules' =>
      stage_1 rules' (apply_file rule mh cfg filename full_text lines)
              cfg filename full_text lines
  end.

(** The inner loop of stage 2, over the rules, for one line.  It returns
    the rule instances as the calls leave them. *)
Fixpoint stage_2_line (rules : list Style_Rule_Line) (mh : Message_Handler)
         (cfg : Config) (filename : string) (line_no : Z) (line : string)
  : list Style_Rule_Line * Message_Handler :=
  match rules with
  | [] => ([], mh)
  | rule :: rules' =>
      let '(rule', mh') := apply_line rule mh cfg filename line_no line in
      let '(rest, mh'') :=
        stage_2_line rules' mh' cfg filename line_no line in
      (rule' :: rest, mh'')
  end.

(** Stage 2: [for line_no, line in enumerate(context_line, line_no)] *)
Fixpoint stage_2 (rules : list Style_Rule_Line) (mh : Message_Handler)
         (cfg : Config) (filename : string) (line_no : Z)
         (lines : list string) : Message_Handler :=
  match lines with
  | [] => mh
  | line :: lines' =>
      let '(rules', mh') :=
        stage_2_line rules mh cfg filename line_no line in
      stage_2 rules' mh' cfg filename (line_no + 1) lines'
  end.

Section Process.

Context {frontend : Frontend}.

(** The lexer as lines 826-830 configure it. *)
Definition create_lexer (wp : Work_Package) : Lexer :=
  let lexer :=
    MATLAB_Lexer (wp_mh wp) (wp_content wp) (wp_filename wp)
                 (wp_blockname wp) in
  let lexer := if octave (wp_cfg wp) then set_octave_mode lexer
               else lexer in
  if ignore_pragmas (wp_cfg wp) then set_process_pragmas false lexer
  else lexer.

(** The [try] block of lines 886-903: the handler and buffer as the
    calls leave them, the dump, and [parse_tree]. *)
Definition create_parse_tree (wp : Work_Package) (mh : Message_Handler)
           (tbuf : Token_Buffer)
  : Message_Handler * Token_Buffer * list string * option Parse_Tree :=
  let '(mh, tbuf, parsed) := parse_file mh tbuf (wp_cfg wp) in
  match parsed with
  | None => (mh, tbuf, [], None)
  | Some parse_tree =>
      let '(mh, ok) := sty_check_naming parse_tree mh (wp_cfg wp) in
      if negb ok then (mh, tbuf, [], None)
      else if opt_debug_validate_links wp
              && negb (debug_validate_links tbuf) then
        (mh, tbuf, [], None)
      else if fd_tree wp then
        let header :=
          "-- Parse tree for " ++ wp_filename wp ++ String "010"%char "" in
        let footer := String "010"%char (String "010"%char "") in
        (mh, tbuf, (header :: pp_node parse_tree ++ [footer])%list,
         Some parse_tree)
      else (mh, tbuf, [], Some parse_tree)
  end.

(** Stages 1 and 2 (lines 839-852): the file rules, then every line rule on
    every line. *)
Definition stages_1_2 (wp : Work_Package) (lexer : Lexer) : Message_Handler :=
  let cfg := wp_cfg wp in
  let rule_lib := build_library cfg (rule_set wp) in
  (* Stage 1 - rules around the file itself *)
  let mh :=
    stage_1 (on_file rule_lib) (wp_mh wp) cfg (lexer_filename lexer)
            (lexer_text lexer) (lexer_context_line lexer) in
  (* Stage 2 - rules around raw text lines *)
  stage_2 (on_line rule_lib) mh cfg (lexer_filename lexer) 1
          (lexer_context_line lexer).

(** [if autofix: lexer.correct_tabs(wp.cfg["tab_width"])] *)
Definition tabs_corrected (wp : Work_Package) (lexer : Lexer) : Lexer :=
  if opt_fix wp then correct_tabs (tab_width (wp_cfg wp)) lexer else lexer.

(** [if parse_tree and wp.options.debug_cfg: g_cfg.debug_cfg(...)] *)
Definition cfg_debugged (wp : Work_Package) (parse_tree : option Parse_Tree)
           (mh : Message_Handler) : Message_Handler :=
  match parse_tree with
  | Some tree => if opt_debug_cfg wp then debug_cfg tree mh else mh
  | None => mh
  end.

(** Lines 922-930, after stage 3 has returned in state [st]. *)
Definition rewrite_file (wp : Work_Package) (lexer : Lexer)
           (tbuf : Token_Buffer) (dump : list string)
           (parse_tree : option Parse_Tree) (st : State) : Effects :=
  let mh := st_mh st in
  let tbuf := mkToken_Buffer (st_tokens st) (comment_char tbuf) in
  if opt_fix wp then
    match parse_tree with
    | None =>
        mkEffects
          (error (get_file_loc lexer)
                 "file is not auto-fixed because it contains parse errors"
                 false mh)
          dump []
    | Some _ =>
        (* TODO: call modify() *)
        mkEffects mh dump [replay tbuf]
    end
  else mkEffects mh dump [].

Definition process_wp (wp : Work_Package) : Result :=
  let cfg := wp_cfg wp in
  (* Create lexer *)
  let lexer := create_lexer wp in
  (* We're dealing with an empty file here. Lets just not do anything *)
  if Z.eqb (Py.len (Py.strip (lexer_text lexer))) 0 then
    MH_Style_Result (mkEffects (wp_mh wp) [] [])
  else
    let mh := stages_1_2 wp lexer in
    let lexer := tabs_corrected wp lexer in
    (* Create tokenbuffer *)
    match new_Token_Buffer mh lexer cfg with
    | (mh, None) =>
        (* If there are lex errors, we can stop here *)
        MH_Style_Result (mkEffects mh [] [])
    | (mh, Some tbuf) =>
        (* Create parse tree *)
        let '(mh, tbuf, dump, parse_tree) := create_parse_tree wp mh tbuf in
        (* Create CFG for debugging purposes *)
        let mh := cfg_debugged wp parse_tree mh in
        (* Stage 3 - rules around individual tokens *)
        match stage_3_analysis mh cfg tbuf (wp_is_embedded wp) with
        | Raised e st => Propagated e (mkEffects (st_mh st) dump [])
        | Returned st =>
            (* Possibly re-write the file, with issues fixed *)
            MH_Style_Result (rewrite_file wp lexer tbuf dump parse_tree st)
        end
    end.

End Process.

(** ** Configurations, token buffers and a front end to run the checker on *)

(** The configuration in which exactly the rules [rules] are active, with
    the default limits. *)
Definition cfg_only (rules : list string) (entity : list string) : Config :=
  mkConfig (fun r => Py.mem r rules) 1000 80 4 entity false false false.

(** A token of [f.m] whose raw text is its value and that the parser left
    alone. *)
Definition plain_token (k v : string) (l c1 c2 : Z) (context : string)
           (first_line first_statement : bool) : Token :=
  mkToken k v v (mkLocation "f.m" l c1 c2 context)
          first_line first_statement false None false Token_Fix.empty.

(** A front end whose lexer keeps the text as it is and splits it at the
    line feeds, whose token buffer constructor yields [lexed] and whose
    parser succeeds when [parses] is set.  The replayer writes the raw
    texts one after the other. *)
Definition toy_frontend (lexed : option Token_Buffer) (parses : bool)
  : Frontend :=
  {| Lexer := string;
     Parse_Tree := unit;
     MATLAB_Lexer := fun _ content _ _ => content;
     lexer_text := fun lexer => lexer;
     lexer_filename := fun _ => "f.m";
     lexer_context_line := Py.split_newline;
     set_octave_mode := fun lexer => lexer;
     set_process_pragmas := fun _ lexer => lexer;
     correct_tabs := fun _ lexer => lexer;
     get_file_loc := fun _ => At_file "f.m";
     new_Token_Buffer := fun mh _ _ => (mh, lexed);
     parse_file :=
       fun mh tbuf _ => (mh, tbuf, if parses then Some tt else None);
     sty_check_naming := fun _ mh _ => (mh, true);
     debug_validate_links := fun _ => true;
     pp_node := fun _ => [];
     debug_cfg := fun _ mh => mh;
     replay := fun tbuf => Py.join "" (map raw_text (tokens tbuf)) |}.

(** A work package for [f.m] with the given content, the rules of this
    file, and [--fix]. *)
Definition fix_package (cfg : Config) (content : string) : Work_Package :=
  mkWork_Package cfg "f.m" None content [] true false false get_rules
                 false false.

(** The text of one space and a line feed. *)
Definition blank_text : string := String " "%char (String "010"%char "").

(** The token buffer of [a=1;], the first token linked to [link]. *)
Definition assignment_buffer (link : option Node) : Token_Buffer :=
  mkToken_Buffer
    [mkToken "IDENTIFIER" "a" "a" (mkLocation "f.m" 1 0 0 "a=1;")
             true true false link false Token_Fix.empty;
     plain_token "ASSIGNMENT" "=" 1 1 1 "a=1;" false false;
     plain_token "NUMBER" "1" 1 2 2 "a=1;" false false;
     plain_token "SEMICOLON" ";" 1 3 3 "a=1;" false false]
    ["%"%char].

(** The assignments stage 3 makes to a fix record. *)
Inductive Setter :=
| Set_ws_before | Set_ws_after | Set_trim_before | Set_trim_after
| Clear_add_newline | Set_replace | Set_delete
| Set_indent (spaces : Z).

Definition run_setter (s : Setter) : Token_Fix.t -> Token_Fix.t :=
  match s with
  | Set_ws_before => Token_Fix.set_ensure_ws_before true
  | Set_ws_after => Token_Fix.set_ensure_ws_after true
  | Set_trim_before => Token_Fix.set_ensure_trim_before true
  | Set_trim_after => Token_Fix.set_ensure_trim_after true
  | Clear_add_newline => Token_Fix.set_add_newline false
  | Set_replace => Token_Fix.set_replace_with_newline true
  | Set_delete => Token_Fix.set_delete true
  | Set_indent spaces => Token_Fix.set_correct_indent (Some spaces)
  end.

Definition run_setters (ss : list Setter) (f : Token_Fix.t) : Token_Fix.t :=
  fold_left (fun f s => run_setter s f) ss f.

(** The attributes of a token that stage 3 never assigns. *)
Definition static_eq (t t' : Token) : Prop :=
  kind t' = kind t /\ value t' = value t /\ location t' = location t
  /\ first_in_line t' = first_in_line t
  /\ first_in_statement t' = first_in_statement t
  /\ anonymous t' = anonymous t /\ ast_link t' = ast_link t
  /\ block_comment t' = block_comment t.

(** Token [t'] is token [t] after assignments from [A] to its fix record
    and, possibly, to its raw text. *)
Definition touched (A : Setter -> Prop) (t t' : Token) : Prop :=
  static_eq t t'
  /\ exists ss, Forall A ss /\ fix_ t' = run_setters ss (fix_ t).

(** Token [t'] is token [t], with [replace_with_newline] set or not. *)
Definition flagged_at_most (t t' : Token) : Prop :=
  t' = t
  \/ t' = set_fix (Token_Fix.set_replace_with_newline true (fix_ t)) t.

(** State [st'] comes from [st] by work on behalf of token [n]: messages
    satisfying [P] were added, token [n] was touched by setters from [A],
    the token after it had at most [replace_with_newline] set (and only if
    [next] allows), and every other token is as it was. *)
Definition frames (P : Message Token -> Prop) (A : Setter -> Prop)
           (next : bool) (n : nat) (st st' : State) : Prop :=
  (exists new, st_mh st' = (st_mh st ++ new)%list /\ Forall P new)
  /\ forall j : nat,
      match st_tokens st !! j, st_tokens st' !! j with
      | Some t, Some t' =>
          if Nat.eqb j n then touched A t t'
          else if Nat.eqb j (S n) && next then flagged_at_most t t'
          else t' = t
      | None, None => True
      | _, _ => False
      end.

(** Every assignment is allowed. *)
Definition any_setter (s : Setter) : Prop := True.

(** Every assignment but [delete = True] is allowed. *)
Definition not_delete (s : Setter) : Prop := s <> Set_delete.

(** Any message. *)
Definition any_message (m : Message Token) : Prop := True.

(** Two lookups in a token list agree on presence, and the tokens found
    are related by [R]. *)
Definition both (R : Token -> Token -> Prop) (o o' : option Token) : Prop :=
  match o, o' with
  | Some t, Some t' => R t t'
  | None, None => True
  | _, _ => False
  end.

(** State [st'] comes from [st] by turns of the loop: messages were added
    and fix records and raw texts assigned, nothing else. *)
Definition evolved (st st' : State) : Prop :=
  (exists new, st_mh st' = (st_mh st ++ new)%list)
  /\ forall j : nat,
      both (touched any_setter) (st_tokens st !! j) (st_tokens st' !! j).

(** The token buffer of [a,  b]: a comma with no space before it and two
    spaces after it. *)
Definition comma_buffer : Token_Buffer :=
  mkToken_Buffer
    [plain_token "IDENTIFIER" "a" 1 0 0 "a,  b" true true;
     plain_token "COMMA" "," 1 1 1 "a,  b" false false;
     plain_token "IDENTIFIER" "b" 1 4 4 "a,  b" false false]
    ["%"%char].


(** A token [x] that carries [flag_continuations] and [add_newline],
    followed on its line by a continuation; [anon] makes the first token
    anonymous. *)
Definition dangerous_buffer (anon : bool) : Token_Buffer :=
  mkToken_Buffer
    [mkToken "IDENTIFIER" "x" "x" (mkLocation "f.m" 1 0 0 "x ...")
             true true anon None false
             (Token_Fix.mk false false false false true false false None
                           false false false true);
     plain_token "CONTINUATION" "..." 1 2 4 "x ..." false false]
    ["%"%char].

(** Where stage 3 may put a message, for the buffer [tokens] it was given:
    a style issue at a token that is not anonymous, or at the token right
    after one, and then it is one of the two messages about what follows a
    token; a justification for a token of the buffer; no error. *)
Definition placed (tokens : list Token) (m : Message Token) : Prop :=
  match m with
  | Style_issue (At loc) message _ =>
      exists j t,
        tokens !! j = Some t /\ anonymous t = false
        /\ (loc = location t
            \/ exists nx,
                tokens !! S j = Some nx /\ loc = location nx
                /\ (message = "this continuation is dangerously misleading"
                    \/ message
                       = "continuations should not start with binary operators"))
  | Style_issue _ _ _ => False
  | Error_msg _ _ _ => False
  | Justification tok => exists j t, tokens !! j = Some t /\ static_eq t tok
  end.

(** The state of the loop fits the buffer [tokens] it started from: its
    tokens are those of the buffer, touched, and the comment remembered as
    the copyright notice is at a token of the buffer that is not
    anonymous. *)
Definition fits (tokens : list Token) (st : State) : Prop :=
  (forall j, both (touched any_setter) (tokens !! j) (st_tokens st !! j))
  /\ forall ct,
      copyright_token (st_copyright st) = Some ct ->
      exists j t,
        tokens !! j = Some t /\ anonymous t = false
        /\ location ct = location t.

(** Three sets of assignments, as the rules of one token make them: the
    comma rule trims before and puts a space after; colons, brackets,
    unary and power operators trim; the other rules put spaces. *)
Definition comma_setters (s : Setter) : Prop :=
  s <> Set_ws_before /\ s <> Set_trim_after.
Definition trim_setters (s : Setter) : Prop :=
  s <> Set_ws_before /\ s <> Set_ws_after.
Definition ws_setters (s : Setter) : Prop :=
  s <> Set_trim_before /\ s <> Set_trim_after.

(** A set of assignments that does not ask for a space and for no space
    on the same side of a token. *)
Definition one_sided (A : Setter -> Prop) : Prop :=
  ((forall s, A s -> s <> Set_ws_before)
   \/ (forall s, A s -> s <> Set_trim_before))
  /\ ((forall s, A s -> s <> Set_ws_after)
      \/ (forall s, A s -> s <> Set_trim_after)).

(** What stage 3 can still say when no rule is active: that a continuation
    is dangerously misleading, without a fix, or that a token is a
    justification. *)
Definition unconditional_message (m : Message Token) : Prop :=
  (exists loc,
      m = Style_issue (At loc) "this continuation is dangerously misleading"
                      (Some false))
  \/ exists tok, m = Justification tok.

(** Token [t'] is token [t], or [t] carries [flag_continuations] and [t']
    is [t] with [add_newline] cleared. *)
Definition cleared (t t' : Token) : Prop :=
  t' = t
  \/ (Token_Fix.flag_continuations (fix_ t) = true
      /\ t' = set_fix (Token_Fix.set_add_newline false (fix_ t)) t).

(** [len(line.strip()) == 0]: the line is blank. *)
Definition blank (line : string) : bool := Z.eqb (Py.len (Py.strip line)) 0.

(** The instance of [Rule_Line_Blank_Lines] whose attribute [is_blank]
    is [b]. *)
Definition blank_rule (b : bool) : Style_Rule_Line :=
  mkLineRule (mkRule "consecutive_blanks" true true) b
             Rule_Line_Blank_Lines_apply.

(** The line rules of the registry as [build_library] instantiates them,
    [consecutive_blanks] with its attribute [is_blank] at [b]. *)
Definition line_rules (cfg : Config) (b : bool) : list Style_Rule_Line :=
  ((if active cfg "line_length" then [Rule_Line_Length] else [])
     ++ [blank_rule b; Rule_Line_Tabs; Rule_Line_Trailing_Whitesapce])%list.

(** What a rule has to say about a line: the messages its [apply] adds. *)
Definition says (rule : Style_Rule_Line) (cfg : Config) (filename : string)
           (k : Z) (line : string) : list (Message Token) :=
  snd (apply_line rule [] cfg filename k line).

(** The line a message is about, if it names one. *)
Definition message_line (m : Message Token) : option Z :=
  match m with
  | Style_issue (At_line _ l) _ _ => Some l
  | Style_issue (At loc) _ _ => Some (line loc)
  | _ => None
  end.

(** The messages of [l] are style issues about lines from [lower] on, in
    ascending order of line. *)
Fixpoint ascending (lower : Z) (l : list (Message Token)) : Prop :=
  match l with
  | [] => True
  | m :: l' =>
      exists k, message_line m = Some k /\ lower <= k /\ ascending k l'
  end.

(** The message of [consecutive_blanks] for line [k]. *)
Definition surplus_blank (filename : string) (k : Z) : Message Token :=
  Style_issue (At_line filename k) "more than one consecutive blank line"
              (Some true).

(** A comment that the rules look at has a raw text to look at: the
    comment rule reads [raw_text[0]]. *)
Definition comment_has_text (t : Token) : Prop :=
  kind t = "COMMENT" -> anonymous t = false -> raw_text t <> "".

(** The variables of the copyright header agree: once a notice in the
    right format was found, the comment it was found in is remembered. *)
Definition header_consistent (cv : Copyright_Vars) : Prop :=
  generic_copyright_found cv = true -> copyright_token cv <> None.

(** Before the turn of token [a], a statement has started or starts with
    the first token. *)
Definition statement_started (a : nat) (st : State) : Prop :=
  st_tokens st = []
  \/ (a = O
      /\ forall t, st_tokens st !! O = Some t -> first_in_statement t = true)
  \/ statement_start_token (st_indent st) <> None.

(** The token buffer of the comment [% #ok], a pragma with a space
    between the comment character and the hash sign. *)
Definition pragma_buffer : Token_Buffer :=
  mkToken_Buffer [plain_token "COMMENT" "% #ok" 1 0 4 "% #ok" true true]
                 ["%"%char].

(** The test of lines 427-428: a comment or a continuation whose value
    contains [mh:ignore_style]. *)
Definition marked (t : Token) : bool :=
  (String.eqb (kind t) "COMMENT" || String.eqb (kind t) "CONTINUATION")
  && Py.contains "mh:ignore_style" (value t).

(** A style issue, as opposed to an error or a justification. *)
Definition is_issue (m : Message Token) : Prop :=
  match m with
  | Style_issue _ _ _ => True
  | _ => False
  end.

(** The tokens registered as justifications by the calls [l], in the
    order of the calls. *)
Definition justifications (l : list (Message Token)) : list Token :=
  flat_map (fun m => match m with Justification t => [t] | _ => [] end) l.

(** The token buffer of [x % mh:ignore_style]. *)
Definition justified_buffer : Token_Buffer :=
  mkToken_Buffer
    [plain_token "IDENTIFIER" "x" 1 0 0 "x % mh:ignore_style" true true;
     plain_token "COMMENT" "% mh:ignore_style" 1 2 18
                 "x % mh:ignore_style" false false]
    ["%"%char].

(** What a call of [process_wp] has left behind, however it ended. *)
Definition effects_of (r : Result) : Effects :=
  match r with
  | MH_Style_Result eff => eff
  | Propagated _ eff => eff
  end.

(** * Properties *)

(** ** Stage 1: [eof_newlines] *)

Lemma last_line_empty_spec (lines : list string) :
  last_line_empty lines = true <-> last lines = Some "".
Proof.
  unfold last_line_empty. destruct (last lines) as [l|]; [|split; discriminate].
  rewrite String.eqb_eq. split; congruence.
Qed.

Lemma last_char_not_newline_spec (s : string) :
  last_char_not_newline s = true <->
  exists c, Py.last s = Some c /\ c <> "010"%char.
Proof.
  unfold last_char_not_newline. destruct (Py.last s) as [c|].
  - rewrite negb_true_iff, Ascii.eqb_neq. split.
    + intros H. exists c. auto.
    + intros (c' & [= <-] & H). exact H.
  - split; [discriminate | intros (c & [=] & _)].
Qed.

Lemma len_zero (s : string) : Py.len s = 0 <-> s = "".
Proof.
  unfold Py.len. destruct s; simpl; split;
    try reflexivity; try discriminate.
Qed.

(** The rule on any text and line list: which of its three branches runs. *)
Lemma Rule_File_EOF_Lines_cases (mh : Message_Handler) (cfg : Config)
      (filename full_text : string) (lines : list string) :
  let at_end := At_line filename (Z.of_nat (length lines)) in
  let blank := last lines = Some "" /\ (2 <= length lines)%nat in
  let unterminated :=
    full_text <> "" /\ exists c, Py.last full_text = Some c /\ c <> "010"%char in
  exists new : Message_Handler,
    apply_file Rule_File_EOF_Lines mh cfg filename full_text lines
    = (mh ++ new)%list
    /\ ((blank /\
         new = [Style_issue at_end "trailing blank lines at end of file"
                            (Some true)])
        \/ (~ blank /\ unterminated /\
            new = [Style_issue at_end "file should end with a new line"
                               (Some true)])
        \/ (~ blank /\ ~ unterminated /\ new = [])).
Proof.
  intros at_end blank unterminated.
  unfold apply_file, Rule_File_EOF_Lines, Rule_File_EOF_Lines_apply; simpl.
  destruct ((Z.of_nat (length lines) >=? 2) && last_line_empty lines)
    eqn:Hblank.
  - apply andb_true_iff in Hblank as [Hlen Hlast].
    apply last_line_empty_spec in Hlast.
    eexists. split; [reflexivity|]. left. split; [|reflexivity].
    split; [assumption | lia].
  - assert (~ blank) as Hnb.
    { intros [Hlast Hlen]. apply last_line_empty_spec in Hlast.
      rewrite Hlast in Hblank.
      destruct (Z.geb_spec (Z.of_nat (length lines)) 2); [discriminate | lia]. }
    destruct (negb (Z.eqb (Py.len full_text) 0)
              && last_char_not_newline full_text) eqn:Hunt.
    + apply andb_true_iff in Hunt as [Hne Hlast].
      apply negb_true_iff, Z.eqb_neq in Hne.
      apply last_char_not_newline_spec in Hlast.
      eexists. split; [reflexivity|]. right; left.
      repeat split; try assumption. intros ->. apply Hne. reflexivity.
    + exists []. split; [symmetry; apply app_nil_r|]. right; right.
      repeat split; try assumption.
      intros [Hne Hlast]. apply last_char_not_newline_spec in Hlast.
      rewrite Hlast, andb_true_r in Hunt.
      apply negb_false_iff, Z.eqb_eq, len_zero in Hunt. contradiction.
Qed.

(** C2. With [lines] the text split at its line feeds (a trailing empty
    piece kept), [eof_newlines] reports "trailing blank lines at end of
    file" at (filename, number of lines) exactly when the last line is
    empty and there are at least two lines; otherwise it reports "file
    should end with a new line" exactly when the text is not empty and
    does not end in a line feed; otherwise it reports nothing. *)
Theorem C2_eof_newlines (mh : Message_Handler) (cfg : Config)
        (filename full_text : string) :
  let lines := Py.split_newline full_text in
  let at_end := At_line filename (Z.of_nat (length lines)) in
  let trailing :=
    Style_issue at_end "trailing blank lines at end of file" (Some true) in
  let missing :=
    Style_issue at_end "file should end with a new line" (Some true) in
  let blank := last lines = Some "" /\ (2 <= length lines)%nat in
  let unterminated :=
    full_text <> "" /\ exists c, Py.last full_text = Some c /\ c <> "010"%char in
  exists new : Message_Handler,
    apply_file Rule_File_EOF_Lines mh cfg filename full_text lines
    = (mh ++ new)%list
    /\ (In trailing new <-> blank)
    /\ (~ blank -> (In missing new <-> unterminated))
    /\ (~ blank -> ~ unterminated -> new = [])
    /\ (length new <= 1)%nat.
Proof.
  intros lines at_end trailing missing blank unterminated.
  destruct (Rule_File_EOF_Lines_cases mh cfg filename full_text lines)
    as (new & Hout & Hcases).
  exists new. split; [exact Hout|].
  destruct Hcases as [(B & ->) | [(NB & U & ->) | (NB & NU & ->)]]; simpl.
  - split; [|split; [|split]]; try (intros; contradiction); auto.
    split; auto.
  - split; [|split; [|split]]; try (intros; contradiction); auto.
    + split; [|intros; contradiction]. intros [H | []]. discriminate H.
    + intros _. split; auto.
  - split; [|split; [|split]]; auto.
    + split; [intros [] | intros; contradiction].
    + intros _. split; [intros [] | intros; contradiction].
Qed.

(** ** The rule library *)

Lemma build_kind_filter {R : Type} (base : R -> Style_Rule) (cfg : Config)
      (rules lib : list R) :
  build_kind base cfg rules lib
  = (lib ++ List.filter
             (fun r => mandatory (base r) || active cfg (name (base r)))
             rules)%list.
Proof.
  revert lib. induction rules as [|rule rules IH]; intros lib; simpl.
  - symmetry. apply app_nil_r.
  - rewrite IH.
    destruct (mandatory (base rule) || active cfg (name (base rule))).
    + rewrite <- app_assoc. reflexivity.
    + reflexivity.
Qed.

Lemma build_kind_In {R : Type} (base : R -> Style_Rule) (cfg : Config)
      (rules : list R) (r : R) :
  In r (build_kind base cfg rules [])
  <-> In r rules
      /\ (mandatory (base r) = true \/ active cfg (name (base r)) = true).
Proof.
  rewrite build_kind_filter. simpl. rewrite filter_In, orb_true_iff.
  reflexivity.
Qed.

(** C7. A rule is in the library built for a configuration exactly when it
    is in the rule set and is mandatory or marked active: a mandatory rule
    always is, whatever the configuration says about its name, and a rule
    that is not mandatory is if and only if the configuration marks it
    active.  This holds for each of the three kinds. *)
Theorem C7_build_library (cfg : Config) (rules : Rule_Set) :
  let lib := build_library cfg rules in
  (forall r, In r (on_file lib)
             <-> In r (on_file rules)
                 /\ (mandatory (file_base r) = true
                     \/ active cfg (name (file_base r)) = true))
  /\ (forall r, In r (on_line lib)
                <-> In r (on_line rules)
                    /\ (mandatory (line_base r) = true
                        \/ active cfg (name (line_base r)) = true))
  /\ (forall r, In r (on_token lib)
                <-> In r (on_token rules)
                    /\ (mandatory r = true \/ active cfg (name r) = true)).
Proof.
  simpl. split; [|split]; intros r; apply build_kind_In.
Qed.


(** ** The driver *)

(** C9. When the text the lexer holds is empty or all whitespace,
    [process_wp] returns right after it has set up the lexer: the message
    handler is as it was, nothing went to the tree dump, and nothing was
    handed to [write_modified], whatever the options and the rule set. *)
Theorem C9_blank_file (frontend : Frontend) (wp : Work_Package) :
  Py.strip (lexer_text (create_lexer wp)) = "" ->
  process_wp wp = MH_Style_Result (mkEffects (wp_mh wp) [] []).
Proof.
  intros Hblank. unfold process_wp. rewrite Hblank. reflexivity.
Qed.

(** On the blank text of one space and a line feed the mandatory rules of
    stages 1 and 2 have something to report: were the stages run, three
    messages would be emitted. *)
Lemma blank_text_rules_would_report :
  @stages_1_2 (toy_frontend None true) (fix_package (cfg_only [] []) blank_text)
              blank_text
  = [Style_issue (At_line "f.m" 2) "trailing blank lines at end of file"
                 (Some true);
     Style_issue (At_line "f.m" 1) "whitespace on blank line" (Some true);
     Style_issue (At_line "f.m" 2) "more than one consecutive blank line"
                 (Some true)].
Proof. reflexivity. Qed.

Lemma C9_blank_file_witness :
  @process_wp (toy_frontend None true)
              (fix_package (cfg_only [] []) blank_text)
  = MH_Style_Result (mkEffects [] [] []).
Proof.
  apply (C9_blank_file (toy_frontend None true)
                       (fix_package (cfg_only [] []) blank_text)).
  reflexivity.
Defined.

(** C8. With [--fix], once the file has been lexed, the [try] block around
    the parser has left [parse_tree] and stage 3 has returned: if
    [parse_tree] is absent, [process_wp] adds the one non-fatal error "file
    is not auto-fixed because it contains parse errors" to the messages and
    hands nothing to [write_modified]; if it is present, the replayed
    token buffer is handed to [write_modified] and no message is added. *)
Theorem C8_fix_with_parse_errors (frontend : Frontend) (wp : Work_Package)
        (mh1 mh2 : Message_Handler) (tbuf1 tbuf2 : Token_Buffer)
        (dump : list string) (parse_tree : option Parse_Tree) (st : State) :
  opt_fix wp = true ->
  Py.strip (lexer_text (create_lexer wp)) <> "" ->
  new_Token_Buffer (stages_1_2 wp (create_lexer wp))
                   (tabs_corrected wp (create_lexer wp)) (wp_cfg wp)
  = (mh1, Some tbuf1) ->
  create_parse_tree wp mh1 tbuf1 = (mh2, tbuf2, dump, parse_tree) ->
  stage_3_analysis (cfg_debugged wp parse_tree mh2) (wp_cfg wp) tbuf2
                   (wp_is_embedded wp)
  = Returned st ->
  process_wp wp
  = MH_Style_Result
      (match parse_tree with
       | None =>
           mkEffects
             (st_mh st
              ++ [Error_msg
                    (get_file_loc (tabs_corrected wp (create_lexer wp)))
                    "file is not auto-fixed because it contains parse errors"
                    false])%list
             dump []
       | Some _ =>
           mkEffects (st_mh st) dump
                     [replay (mkToken_Buffer (st_tokens st)
                                             (comment_char tbuf2))]
       end).
Proof.
  intros Hfix Htext Hlex Hparse Hstage3.
  unfold process_wp.
  destruct (Z.eqb_spec (Py.len (Py.strip (lexer_text (create_lexer wp)))) 0)
    as [Hlen | _].
  { apply len_zero in Hlen. contradiction. }
  rewrite Hlex, Hparse, Hstage3.
  unfold rewrite_file. rewrite Hfix. destruct parse_tree; reflexivity.
Qed.

Lemma C8_fix_with_parse_errors_witness :
  @process_wp (toy_frontend (Some (assignment_buffer None)) false)
              (fix_package (cfg_only ["whitespace_assignment"] []) "a=1;")
  = MH_Style_Result
      (mkEffects
         [Style_issue (At_line "f.m" 1) "file should end with a new line"
                      (Some true);
          Style_issue (At (mkLocation "f.m" 1 1 1 "a=1;"))
                      "= must be preceeded by whitespace" (Some true);
          Error_msg (At_file "f.m")
                    "file is not auto-fixed because it contains parse errors"
                    false]
         [] []).
Proof.
  set (fe := toy_frontend (Some (assignment_buffer None)) false).
  set (wp := fix_package (cfg_only ["whitespace_assignment"] []) "a=1;").
  apply (C8_fix_with_parse_errors
           fe wp
           (@stages_1_2 fe wp "a=1;") (@stages_1_2 fe wp "a=1;")
           (assignment_buffer None) (assignment_buffer None) [] None
           (state_of (stage_3_analysis (@stages_1_2 fe wp "a=1;")
                                       (wp_cfg wp) (assignment_buffer None)
                                       false))).
  - reflexivity.
  - vm_compute. discriminate.
  - reflexivity.
  - reflexivity.
  - reflexivity.
Defined.

(** ** Stage 3: what one turn of the loop may change *)

Lemma static_eq_refl (t : Token) : static_eq t t.
Proof. repeat split. Qed.

Lemma static_eq_trans (t1 t2 t3 : Token) :
  static_eq t1 t2 -> static_eq t2 t3 -> static_eq t1 t3.
Proof.
  unfold static_eq. intros (?&?&?&?&?&?&?&?) (?&?&?&?&?&?&?&?).
  repeat split; congruence.
Qed.

Lemma run_setters_app (ss1 ss2 : list Setter) (f : Token_Fix.t) :
  run_setters (ss1 ++ ss2) f = run_setters ss2 (run_setters ss1 f).
Proof. unfold run_setters. apply fold_left_app. Qed.

Lemma touched_refl (A : Setter -> Prop) (t : Token) : touched A t t.
Proof. split; [apply static_eq_refl|]. exists []. split; constructor. Qed.

Lemma touched_trans (A : Setter -> Prop) (t1 t2 t3 : Token) :
  touched A t1 t2 -> touched A t2 t3 -> touched A t1 t3.
Proof.
  intros [S12 (ss1 & A1 & E1)] [S23 (ss2 & A2 & E2)].
  split; [eapply static_eq_trans; eassumption|].
  exists (ss1 ++ ss2)%list. split.
  - apply Forall_app. split; assumption.
  - rewrite run_setters_app, <- E1. exact E2.
Qed.

Lemma flagged_at_most_trans (t1 t2 t3 : Token) :
  flagged_at_most t1 t2 -> flagged_at_most t2 t3 -> flagged_at_most t1 t3.
Proof.
  unfold flagged_at_most. intros [-> | ->] [-> | ->]; auto.
Qed.

Lemma frames_refl P A next n st : frames P A next n st st.
Proof.
  split.
  - exists []. split; [symmetry; apply app_nil_r | constructor].
  - intros j. destruct (st_tokens st !! j) as [t|]; [|exact I].
    destruct (Nat.eqb j n); [apply touched_refl|].
    destruct (Nat.eqb j (S n) && next); [left|]; reflexivity.
Qed.

Lemma frames_trans P A next n st1 st2 st3 :
  frames P A next n st1 st2 -> frames P A next n st2 st3 ->
  frames P A next n st1 st3.
Proof.
  intros [(new1 & E1 & F1) T1] [(new2 & E2 & F2) T2]. split.
  - exists (new1 ++ new2)%list. split.
    + rewrite E2, E1. symmetry. apply app_assoc.
    + apply Forall_app. split; assumption.
  - intros j. specialize (T1 j). specialize (T2 j).
    destruct (st_tokens st1 !! j) as [t1|], (st_tokens st2 !! j) as [t2|],
             (st_tokens st3 !! j) as [t3|]; try contradiction; try exact I.
    destruct (Nat.eqb j n); [eapply touched_trans; eassumption|].
    destruct (Nat.eqb j (S n) && next);
      [eapply flagged_at_most_trans; eassumption | congruence].
Qed.

Lemma frames_same P A next n st st' :
  st_mh st' = st_mh st -> st_tokens st' = st_tokens st ->
  frames P A next n st st'.
Proof.
  intros Hmh Htok. split.
  - exists []. split; [rewrite Hmh; symmetry; apply app_nil_r | constructor].
  - intros j. rewrite Htok.
    destruct (st_tokens st !! j) as [t|]; [|exact I].
    destruct (Nat.eqb j n); [apply touched_refl|].
    destruct (Nat.eqb j (S n) && next); [left|]; reflexivity.
Qed.

Lemma frames_message P A next n st m :
  P m -> frames P A next n st (with_mh (st_mh st ++ [m])%list st).
Proof.
  intros Hm. split.
  - exists [m]. split; [reflexivity | repeat constructor; exact Hm].
  - intros j. simpl.
    destruct (st_tokens st !! j) as [t|]; [|exact I].
    destruct (Nat.eqb j n); [apply touched_refl|].
    destruct (Nat.eqb j (S n) && next); [left|]; reflexivity.
Qed.

Lemma frames_alter_token P A next n st (g : Token -> Token) :
  (forall t, touched A t (g t)) ->
  frames P A next n st (with_tokens (alter g n (st_tokens st)) st).
Proof.
  intros Hg. split.
  - exists []. split; [symmetry; apply app_nil_r | constructor].
  - intros j. simpl. destruct (Nat.eqb_spec j n) as [-> | Hne].
    + rewrite list_lookup_alter_eq.
      destruct (st_tokens st !! n) as [t|]; simpl; [apply Hg | exact I].
    + rewrite list_lookup_alter_ne by congruence.
      destruct (st_tokens st !! j) as [t|]; [|exact I].
      destruct (Nat.eqb j (S n) && next); [left|]; reflexivity.
Qed.

Lemma frames_alter_next P A n st :
  frames P A true n st
         (modify_fix (S n) (Token_Fix.set_replace_with_newline true) st).
Proof.
  split.
  - exists []. split; [symmetry; apply app_nil_r | constructor].
  - intros j. cbn -[Nat.eqb]. destruct (Nat.eqb_spec j (S n)) as [-> | Hne].
    + rewrite list_lookup_alter_eq.
      destruct (st_tokens st !! S n) as [t|]; cbn -[Nat.eqb]; [|exact I].
      destruct (Nat.eqb_spec (S n) n) as [Heq | _]; [lia|].
      right. reflexivity.
    + rewrite list_lookup_alter_ne by congruence.
      destruct (st_tokens st !! j) as [t|]; [|exact I].
      destruct (Nat.eqb j n); [apply touched_refl | reflexivity].
Qed.

Lemma touched_setter (A : Setter -> Prop) (s : Setter) (t : Token) :
  A s -> touched A t (set_fix (run_setter s (fix_ t)) t).
Proof.
  intros Hs. split; [repeat split|].
  exists [s]. split; [repeat constructor; exact Hs | reflexivity].
Qed.

Lemma touched_raw_text (A : Setter -> Prop) (text : string) (t : Token) :
  touched A t (set_raw_text text t).
Proof. split; [repeat split|]. exists []. split; constructor. Qed.

(** The same facts in the form in which a rule composes them: what holds
    up to a state still holds after one more effect. *)
Lemma frames_issue P A next n st st1 loc message fixed :
  P (Style_issue (At loc) message fixed) ->
  frames P A next n st st1 ->
  frames P A next n st (issue loc message fixed st1).
Proof.
  intros Hm H. eapply frames_trans; [exact H|].
  apply frames_message. exact Hm.
Qed.

Lemma frames_justification P A next n st st1 token :
  P (Justification token) ->
  frames P A next n st st1 ->
  frames P A next n st
         (with_mh (register_justification token (st_mh st1)) st1).
Proof.
  intros Hm H. eapply frames_trans; [exact H|].
  apply frames_message. exact Hm.
Qed.

Lemma frames_modify_fix P A next n st st1 (s : Setter) :
  A s ->
  frames P A next n st st1 ->
  frames P A next n st (modify_fix n (run_setter s) st1).
Proof.
  intros Hs H. eapply frames_trans; [exact H|].
  apply frames_alter_token. intros t. apply touched_setter. exact Hs.
Qed.

Lemma frames_modify_next P A n st st1 :
  frames P A true n st st1 ->
  frames P A true n st
         (modify_fix (S n) (Token_Fix.set_replace_with_newline true) st1).
Proof.
  intros H. eapply frames_trans; [exact H|]. apply frames_alter_next.
Qed.

Lemma frames_modify_raw_text P A next n st st1 text :
  frames P A next n st st1 ->
  frames P A next n st (modify_raw_text n text st1).
Proof.
  intros H. eapply frames_trans; [exact H|].
  apply frames_alter_token. intros t. apply touched_raw_text.
Qed.

Lemma frames_with_copyright P A next n st st1 cv :
  frames P A next n st st1 -> frames P A next n st (with_copyright cv st1).
Proof.
  intros H. eapply frames_trans; [exact H|]. apply frames_same; reflexivity.
Qed.

Lemma frames_with_indent P A next n st st1 iv :
  frames P A next n st st1 -> frames P A next n st (with_indent iv st1).
Proof.
  intros H. eapply frames_trans; [exact H|]. apply frames_same; reflexivity.
Qed.

Lemma frames_weaken (P Q : Message Token -> Prop) (A B : Setter -> Prop)
      (next next' : bool) n st st' :
  (forall m, P m -> Q m) -> (forall s, A s -> B s) ->
  (next = true -> next' = true) ->
  frames P A next n st st' -> frames Q B next' n st st'.
Proof.
  intros HPQ HAB Hnext [(new & E & F) T]. split.
  - exists new. split; [exact E|]. eapply Forall_impl; eassumption.
  - intros j. specialize (T j).
    destruct (st_tokens st !! j) as [t|], (st_tokens st' !! j) as [t'|];
      try contradiction; try exact I.
    destruct (Nat.eqb j n).
    + destruct T as [S (ss & Hss & Hfix)]. split; [exact S|].
      exists ss. split; [|exact Hfix]. eapply Forall_impl; eassumption.
    + destruct (Nat.eqb j (S n)); simpl in *.
      * destruct next; simpl in *.
        -- rewrite Hnext by reflexivity. exact T.
        -- destruct next'; [left|]; exact T.
      * exact T.
Qed.

Lemma frames_bind P A next n st o (f : State -> Outcome) :
  frames P A next n st (state_of o) ->
  (forall s, frames P A next n st s -> frames P A next n st (state_of (f s))) ->
  frames P A next n st (state_of (bind o f)).
Proof. intros Ho Hf. destruct o as [s | e s]; simpl; auto. Qed.

Ltac frames_step :=
  first
    [ apply frames_refl
    | assumption
    | apply frames_issue; [solve [auto] |]
    | apply frames_justification; [solve [auto] |]
    | apply (frames_modify_fix _ _ _ _ _ _ Set_ws_before); [solve [auto] |]
    | apply (frames_modify_fix _ _ _ _ _ _ Set_ws_after); [solve [auto] |]
    | apply (frames_modify_fix _ _ _ _ _ _ Set_trim_before); [solve [auto] |]
    | apply (frames_modify_fix _ _ _ _ _ _ Set_trim_after); [solve [auto] |]
    | apply (frames_modify_fix _ _ _ _ _ _ Clear_add_newline); [solve [auto] |]
    | apply (frames_modify_fix _ _ _ _ _ _ Set_replace); [solve [auto] |]
    | apply (frames_modify_fix _ _ _ _ _ _ Set_delete); [solve [auto] |]
    | apply (frames_modify_fix _ _ _ _ _ _ (Set_indent _)); [solve [auto] |]
    | apply frames_modify_next
    | apply frames_modify_raw_text
    | apply frames_with_copyright
    | apply frames_with_indent ].

Ltac frames_block := cbv zeta; repeat case_match; simpl state_of;
                     repeat frames_step.

Section Block_Frames.

Variables (P : Message Token -> Prop) (A : Setter -> Prop) (next : bool).
Variables (cfg : Config) (n : nat) (token : Token) (nb : Neighbours).

(** a rule may report at the token at hand *)
Hypothesis P_here :
  forall message fixed, P (Style_issue (At (location token)) message fixed).

Lemma recognise_justification_frames st :
  P (Justification token) ->
  frames P A next n st (recognise_justification token st).
Proof. intros HJ. unfold recognise_justification. frames_block. Qed.

Lemma copyright_check_frames st :
  (forall ct message fixed,
      copyright_token (st_copyright st) = Some ct ->
      P (Style_issue (At (location ct)) message fixed)) ->
  frames P A next n st (state_of (copyright_check cfg token st)).
Proof.
  intros HC. unfold copyright_check. frames_block.
  all: apply frames_issue; [eapply HC; eassumption | frames_step].
  all: frames_step.
Qed.

Lemma check_comma_frames st :
  A Set_trim_before -> A Set_ws_after ->
  frames P A next n st (check_comma cfg n token nb st).
Proof. intros. unfold check_comma. frames_block. Qed.

Lemma check_colon_frames st :
  A Set_trim_before -> A Set_trim_after ->
  frames P A next n st (check_colon cfg n token nb st).
Proof. intros. unfold check_colon. frames_block. Qed.

Lemma check_assignment_frames st :
  A Set_ws_before -> A Set_ws_after ->
  frames P A next n st (check_assignment cfg n token nb st).
Proof. intros. unfold check_assignment. frames_block. Qed.

Lemma check_bra_frames st :
  A Set_trim_after -> frames P A next n st (check_bra cfg n token nb st).
Proof. intros. unfold check_bra. frames_block. Qed.

Lemma check_ket_frames st :
  A Set_trim_before -> frames P A next n st (check_ket cfg n token nb st).
Proof. intros. unfold check_ket. frames_block. Qed.

Lemma check_keyword_frames st :
  A Set_ws_after -> frames P A next n st (check_keyword cfg n token nb st).
Proof. intros. unfold check_keyword. frames_block. Qed.

Lemma check_comment_frames comment_chars st :
  A Set_ws_before ->
  frames P A next n st
         (state_of (check_comment cfg comment_chars n token nb st)).
Proof.
  intros. unfold check_comment.
  destruct (active cfg "whitespace_comments"); [|apply frames_refl].
  destruct (raw_text token) as [|comment_char body] eqn:Hraw;
    [apply frames_refl|].
  apply frames_bind; [|intros s Hs]; frames_block.
Qed.

(** The continuation rule: it deletes only on its last branch. *)
Lemma check_continuation_frames st :
  A Set_ws_before -> A Set_replace ->
  (active cfg "useless_continuation" = true ->
   kind_is "NEWLINE" (next_token nb) || kind_is "COMMENT" (next_token nb)
   = false ->
   A Set_delete) ->
  (forall nx, next_token nb = Some nx ->
              P (Style_issue
                   (At (location nx))
                   "continuations should not start with binary operators"
                   None)) ->
  frames P A next n st (check_continuation cfg n token nb st).
Proof.
  intros ? ? HD HN. unfold check_continuation. frames_block.
Qed.

Lemma check_operator_frames st :
  A Set_ws_before -> A Set_ws_after -> A Set_trim_before ->
  A Set_trim_after ->
  frames P A next n st (check_operator cfg n token nb st).
Proof. intros. unfold check_operator. frames_block. Qed.

Lemma check_annotation_frames st :
  A Set_ws_after -> frames P A next n st (check_annotation cfg n token nb st).
Proof. intros. unfold check_annotation. frames_block. Qed.

Lemma check_newline_frames st :
  A Set_delete -> frames P A next n st (check_newline cfg n token st).
Proof. intros. unfold check_newline. frames_block. Qed.

Lemma indentation_check_frames st :
  (forall spaces, A (Set_indent spaces)) ->
  frames P A next n st (state_of (indentation_check cfg n token st)).
Proof. intros. unfold indentation_check. frames_block. Qed.

End Block_Frames.


Lemma neighbours_next_token tokens n token :
  next_token (neighbours tokens n token) = tokens !! S n.
Proof.
  unfold neighbours.
  destruct (match n with O => None | S p => tokens !! p end) as [p|];
    [destruct (Z.eqb (line (location p)) (line (location token)))|];
    (destruct (tokens !! S n) as [nx|];
     [destruct (Z.eqb (line (location nx)) (line (location token)));
      [destruct (String.eqb (kind nx) "NEWLINE")|]|]);
    reflexivity.
Qed.

Lemma neighbours_prev_token tokens n token :
  prev_token (neighbours tokens n token)
  = match n with O => None | S p => tokens !! p end.
Proof.
  unfold neighbours.
  destruct (match n with O => None | S p => tokens !! p end) as [p|];
    [destruct (Z.eqb (line (location p)) (line (location token)))|];
    (destruct (tokens !! S n) as [nx|];
     [destruct (Z.eqb (line (location nx)) (line (location token)));
      [destruct (String.eqb (kind nx) "NEWLINE")|]|]);
    reflexivity.
Qed.

Lemma neighbours_next_in_line tokens n token nx :
  next_in_line (neighbours tokens n token) = Some nx <->
  tokens !! S n = Some nx
  /\ line (location nx) = line (location token)
  /\ kind nx <> "NEWLINE".
Proof.
  unfold neighbours.
  destruct (match n with O => None | S p => tokens !! p end) as [p|];
    [destruct (Z.eqb (line (location p)) (line (location token)))|];
    (destruct (tokens !! S n) as [nx'|];
     [destruct (Z.eqb_spec (line (location nx')) (line (location token)));
      [destruct (String.eqb_spec (kind nx') "NEWLINE")|]|]);
    simpl; split;
    try (intros [= <-]; auto); try discriminate;
    try (intros ([= <-] & ? & ?); try reflexivity; contradiction);
    try (intros ([=] & _)).
Qed.

Section Iteration_Frames.

Variables (P : Message Token -> Prop).
Variables (cfg : Config) (comment_chars : list ascii) (n : nat).
Variables (token : Token).

Hypothesis P_here :
  forall message fixed, P (Style_issue (At (location token)) message fixed).

Lemma dangerous_continuation_check_frames A nb st :
  A Clear_add_newline ->
  (forall nx fixed,
      next_in_line nb = Some nx ->
      P (Style_issue (At (location nx))
                     "this continuation is dangerously misleading"
                     fixed)) ->
  frames P A true n st (dangerous_continuation_check cfg n token nb st).
Proof.
  intros HA HN. unfold dangerous_continuation_check.
  destruct (next_in_line nb) as [nx|]; [|apply frames_refl].
  frames_block.
  all: match goal with
       | H : (_, _) = (_, _) |- _ => injection H as <- <-
       end.
  all: repeat frames_step.
  all: apply frames_issue; [apply HN; reflexivity|]; repeat frames_step.
Qed.

Lemma token_rules_frames A next nb st :
  (forall s, A s) ->
  (forall nx, next_token nb = Some nx ->
              P (Style_issue
                   (At (location nx))
                   "continuations should not start with binary operators"
                   None)) ->
  frames P A next n st
         (state_of (token_rules cfg comment_chars n token nb st)).
Proof.
  intros HA HN. unfold token_rules.
  repeat case_match; simpl state_of;
    auto using check_comma_frames, check_colon_frames,
      check_assignment_frames, check_bra_frames, check_ket_frames,
      check_keyword_frames, check_comment_frames, check_continuation_frames,
      check_operator_frames, check_annotation_frames, check_newline_frames,
      frames_refl.
Qed.

Lemma st_copyright_recognise_justification tok st :
  st_copyright (recognise_justification tok st) = st_copyright st.
Proof. unfold recognise_justification. repeat case_match; reflexivity. Qed.

(** One turn of the loop for a token that is not anonymous. *)
Lemma iteration_frames st :
  st_tokens st !! n = Some token ->
  anonymous token = false ->
  P (Justification token) ->
  (forall ct message fixed,
      copyright_token (st_copyright st) = Some ct ->
      P (Style_issue (At (location ct)) message fixed)) ->
  (forall nx,
      st_tokens st !! S n = Some nx ->
      P (Style_issue (At (location nx))
                     "continuations should not start with binary operators"
                     None)) ->
  (forall nx fixed,
      st_tokens st !! S n = Some nx ->
      P (Style_issue (At (location nx))
                     "this continuation is dangerously misleading" fixed)) ->
  frames P any_setter true n st (state_of (iteration cfg comment_chars n st)).
Proof.
  intros Hn Hanon HJ HC HO HD.
  unfold iteration. rewrite Hn, Hanon.
  set (nb := neighbours (st_tokens st) n token).
  set (st1 := recognise_justification
                token (with_indent (track_statement token (st_indent st)) st)).
  assert (frames P any_setter true n st st1) as H1.
  { eapply frames_trans;
      [apply frames_with_indent, frames_refl
      | apply recognise_justification_frames; assumption]. }
  apply frames_bind.
  - eapply frames_trans; [exact H1|].
    apply copyright_check_frames; [assumption|].
    subst st1. rewrite st_copyright_recognise_justification. exact HC.
  - intros s Hs. apply frames_bind.
    + eapply frames_trans; [exact Hs|].
      apply token_rules_frames; [exact (fun _ => I) |].
      intros nx Hnx. apply HO. subst nb.
      rewrite neighbours_next_token in Hnx. exact Hnx.
    + intros s2 Hs2. eapply frames_trans; [exact Hs2|].
      eapply frames_trans.
      * apply dangerous_continuation_check_frames; [exact I|].
        intros nx fixed Hnx. apply HD. subst nb.
        destruct (proj1 (neighbours_next_in_line (st_tokens st) n token nx)
                        Hnx) as (H & _).
        exact H.
      * apply indentation_check_frames; [assumption | intros; exact I].
Qed.

End Iteration_Frames.

(** One turn of the loop for an anonymous token: the statement start is
    tracked, a justification is registered, and that is all. *)
Lemma iteration_anonymous cfg comment_chars n st token :
  st_tokens st !! n = Some token ->
  anonymous token = true ->
  iteration cfg comment_chars n st
  = Returned (recognise_justification
                token
                (with_indent (track_statement token (st_indent st)) st)).
Proof. intros Hn Hanon. unfold iteration. rewrite Hn, Hanon. reflexivity. Qed.


(** ** Stage 3: what the whole loop may change *)

Lemma both_refl (R : Token -> Token -> Prop) o :
  (forall t, R t t) -> both R o o.
Proof. intros HR. destruct o; simpl; auto. Qed.

Lemma both_trans (R : Token -> Token -> Prop) o1 o2 o3 :
  (forall t1 t2 t3, R t1 t2 -> R t2 t3 -> R t1 t3) ->
  both R o1 o2 -> both R o2 o3 -> both R o1 o3.
Proof.
  intros HR. destruct o1, o2, o3; simpl; try tauto. apply HR.
Qed.

Lemma both_eq o o' : both eq o o' <-> o' = o.
Proof.
  destruct o, o'; simpl; split; try congruence; try tauto; discriminate.
Qed.

Lemma flagged_at_most_touched (t t' : Token) :
  flagged_at_most t t' -> touched any_setter t t'.
Proof.
  intros [-> | ->]; [apply touched_refl|].
  apply (touched_setter any_setter Set_replace). exact I.
Qed.

Lemma frames_here P A next n st st' :
  frames P A next n st st' ->
  both (touched A) (st_tokens st !! n) (st_tokens st' !! n).
Proof.
  intros [_ T]. specialize (T n). unfold both.
  destruct (st_tokens st !! n), (st_tokens st' !! n); try exact T.
  rewrite Nat.eqb_refl in T. exact T.
Qed.

Lemma frames_next P A next n st st' :
  frames P A next n st st' ->
  both flagged_at_most (st_tokens st !! S n) (st_tokens st' !! S n).
Proof.
  intros [_ T]. specialize (T (S n)). unfold both.
  destruct (st_tokens st !! S n), (st_tokens st' !! S n); try exact T.
  destruct (Nat.eqb_spec (S n) n) as [Heq | _]; [lia|].
  rewrite Nat.eqb_refl in T. destruct next; simpl in T.
  - exact T.
  - left. exact T.
Qed.

Lemma frames_next_untouched P A n st st' :
  frames P A false n st st' -> st_tokens st' !! S n = st_tokens st !! S n.
Proof.
  intros [_ T]. specialize (T (S n)).
  destruct (st_tokens st !! S n), (st_tokens st' !! S n);
    try contradiction; try reflexivity.
  destruct (Nat.eqb_spec (S n) n) as [Heq | _]; [lia|].
  rewrite andb_false_r in T. congruence.
Qed.

Lemma frames_other P A next n st st' j :
  frames P A next n st st' -> j <> n -> j <> S n ->
  st_tokens st' !! j = st_tokens st !! j.
Proof.
  intros [_ T] Hn HS. specialize (T j).
  destruct (st_tokens st !! j), (st_tokens st' !! j);
    try contradiction; try reflexivity.
  destruct (Nat.eqb_spec j n); [contradiction|].
  destruct (Nat.eqb_spec j (S n)); [contradiction|].
  simpl in T. congruence.
Qed.

Lemma frames_mh P A next n st st' :
  frames P A next n st st' ->
  exists new, st_mh st' = (st_mh st ++ new)%list /\ Forall P new.
Proof. intros [H _]. exact H. Qed.

Lemma frames_evolved P A next n st st' :
  frames P A next n st st' -> evolved st st'.
Proof.
  intros H. split.
  - destruct (frames_mh _ _ _ _ _ _ H) as (new & E & _). eauto.
  - intros j. destruct (Nat.eq_dec j n) as [-> | Hn].
    + pose proof (frames_here _ _ _ _ _ _ H) as T. unfold both in *.
      destruct (st_tokens st !! n), (st_tokens st' !! n); try exact T.
      destruct T as [S (ss & _ & E)]. split; [exact S|].
      exists ss. split; [|exact E]. apply Forall_forall. intros; exact I.
    + destruct (Nat.eq_dec j (S n)) as [-> | HS].
      * pose proof (frames_next _ _ _ _ _ _ H) as T. unfold both in *.
        destruct (st_tokens st !! S n), (st_tokens st' !! S n); try exact T.
        apply flagged_at_most_touched. exact T.
      * rewrite (frames_other _ _ _ _ _ _ _ H Hn HS).
        apply both_refl. apply touched_refl.
Qed.

Lemma evolved_refl st : evolved st st.
Proof.
  split.
  - exists []. symmetry. apply app_nil_r.
  - intros j. apply both_refl, touched_refl.
Qed.

Lemma evolved_trans st1 st2 st3 :
  evolved st1 st2 -> evolved st2 st3 -> evolved st1 st3.
Proof.
  intros [(new1 & E1) T1] [(new2 & E2) T2]. split.
  - exists (new1 ++ new2)%list. rewrite E2, E1. symmetry. apply app_assoc.
  - intros j. eapply both_trans; [apply touched_trans | apply T1 | apply T2].
Qed.

(** One turn of the loop, for any token. *)
Lemma iteration_frames_any cfg comment_chars n st :
  frames any_message any_setter true n st
         (state_of (iteration cfg comment_chars n st)).
Proof.
  destruct (st_tokens st !! n) as [token|] eqn:Hn.
  - destruct (anonymous token) eqn:Hanon.
    + erewrite iteration_anonymous by eassumption. simpl.
      eapply frames_trans;
        [apply frames_with_indent, frames_refl
        | apply recognise_justification_frames; exact I].
    + apply iteration_frames with (token := token);
        try assumption; intros; exact I.
  - unfold iteration. rewrite Hn. apply frames_refl.
Qed.

Lemma iterations_app cfg comment_chars ns1 ns2 st :
  iterations cfg comment_chars (ns1 ++ ns2) st
  = bind (iterations cfg comment_chars ns1 st)
         (iterations cfg comment_chars ns2).
Proof.
  revert st. induction ns1 as [|n ns1 IH]; intros st; simpl; [reflexivity|].
  destruct (iteration cfg comment_chars n st) as [s | e s]; simpl;
    [apply IH | reflexivity].
Qed.

Lemma iterations_evolved cfg comment_chars ns st :
  evolved st (state_of (iterations cfg comment_chars ns st)).
Proof.
  revert st. induction ns as [|n ns IH]; intros st; simpl;
    [apply evolved_refl|].
  pose proof (iteration_frames_any cfg comment_chars n st) as H.
  apply frames_evolved in H.
  destruct (iteration cfg comment_chars n st) as [s | e s]; simpl in *;
    [|exact H].
  eapply evolved_trans; [exact H | apply IH].
Qed.

(** Turns for other tokens leave token [j] alone, but for the turn of the
    token before it, which may set [replace_with_newline]. *)
Lemma iterations_flagged_at_most cfg comment_chars ns st j :
  (forall i, In i ns -> j <> i) ->
  both flagged_at_most
       (st_tokens st !! j)
       (st_tokens (state_of (iterations cfg comment_chars ns st)) !! j).
Proof.
  revert st. induction ns as [|n ns IH]; intros st Hns; simpl.
  - apply both_refl. intros t. left. reflexivity.
  - pose proof (iteration_frames_any cfg comment_chars n st) as H.
    assert (j <> n) as Hn by (apply Hns; left; reflexivity).
    assert (both flagged_at_most
                 (st_tokens st !! j)
                 (st_tokens (state_of (iteration cfg comment_chars n st))
                   !! j)) as Hj.
    { destruct (Nat.eq_dec j (S n)) as [-> | HS].
      - eapply frames_next. exact H.
      - rewrite (frames_other _ _ _ _ _ _ _ H Hn HS).
        apply both_refl. intros t. left. reflexivity. }
    destruct (iteration cfg comment_chars n st) as [s | e s]; simpl in *;
      [|exact Hj].
    eapply both_trans; [apply flagged_at_most_trans | exact Hj |].
    apply IH. intros i Hi. apply Hns. right. exact Hi.
Qed.

Lemma iterations_untouched cfg comment_chars ns st j :
  (forall i, In i ns -> j <> i /\ j <> S i) ->
  st_tokens (state_of (iterations cfg comment_chars ns st)) !! j
  = st_tokens st !! j.
Proof.
  revert st. induction ns as [|n ns IH]; intros st Hns; simpl; [reflexivity|].
  pose proof (iteration_frames_any cfg comment_chars n st) as H.
  destruct (Hns n) as [Hn HS]; [left; reflexivity|].
  pose proof (frames_other _ _ _ _ _ _ _ H Hn HS) as Hj.
  destruct (iteration cfg comment_chars n st) as [s | e s]; simpl in *;
    [|exact Hj].
  rewrite IH; [exact Hj|]. intros i Hi. apply Hns. right. exact Hi.
Qed.

Lemma bind_Returned o (f : State -> Outcome) st' :
  bind o f = Returned st' -> exists s, o = Returned s /\ f s = Returned st'.
Proof. destruct o as [s | e s]; simpl; [eauto | discriminate]. Qed.

Lemma seq_split (n len : nat) :
  (n < len)%nat -> seq 0 len = (seq 0 n ++ n :: seq (S n) (len - S n))%list.
Proof.
  intros Hn. replace len with (n + S (len - S n))%nat at 1 by lia.
  rewrite seq_app. reflexivity.
Qed.

(** The run of stage 3 around the turn of token [n]: the turns before it,
    which leave token [n] alone but for [replace_with_newline] and do not
    reach the tokens after it; its own turn; and the turns after it, which
    do not come back to it or to a token before it. *)
Lemma stage_3_split mh cfg tbuf is_embedded final n token :
  stage_3_analysis mh cfg tbuf is_embedded = Returned final ->
  tokens tbuf !! n = Some token ->
  let init := initial_state mh cfg tbuf is_embedded in
  exists before after,
    iterations cfg (comment_char tbuf) (seq 0 n) init = Returned before
    /\ iteration cfg (comment_char tbuf) n before = Returned after
    /\ iterations cfg (comment_char tbuf)
                  (seq (S n) (length (tokens tbuf) - S n)) after
       = Returned final
    /\ both flagged_at_most (Some token) (st_tokens before !! n)
    /\ (forall j, (n < j)%nat -> st_tokens before !! j = tokens tbuf !! j)
    /\ (forall j, (j <= n)%nat -> st_tokens final !! j = st_tokens after !! j)
    /\ evolved init before
    /\ evolved after final.
Proof.
  intros Hrun Hn init.
  assert (n < length (tokens tbuf))%nat as Hlen
      by (eapply lookup_lt_Some; eassumption).
  unfold stage_3_analysis in Hrun. fold init in Hrun.
  rewrite (seq_split n _ Hlen), iterations_app in Hrun.
  apply bind_Returned in Hrun as (before & Hbefore & Hrun).
  simpl in Hrun. apply bind_Returned in Hrun as (after & Hafter & Hrest).
  exists before, after. repeat split; try assumption.
  - pose proof (iterations_flagged_at_most
                  cfg (comment_char tbuf) (seq 0 n) init n) as H.
    rewrite Hbefore in H. simpl in H. change (st_tokens init) with (tokens tbuf) in H.
    rewrite Hn in H. apply H. intros i Hi. apply in_seq in Hi. lia.
  - intros j Hj.
    pose proof (iterations_untouched
                  cfg (comment_char tbuf) (seq 0 n) init j) as H.
    rewrite Hbefore in H. apply H. intros i Hi. apply in_seq in Hi. lia.
  - intros j Hj.
    pose proof (iterations_untouched
                  cfg (comment_char tbuf)
                  (seq (S n) (length (tokens tbuf) - S n)) after j) as H.
    rewrite Hrest in H. apply H. intros i Hi. apply in_seq in Hi. lia.
  - pose proof (iterations_evolved cfg (comment_char tbuf) (seq 0 n) init)
      as [H _].
    rewrite Hbefore in H. exact H.
  - pose proof (iterations_evolved cfg (comment_char tbuf) (seq 0 n) init)
      as [_ H].
    rewrite Hbefore in H. exact H.
  - pose proof (iterations_evolved
                  cfg (comment_char tbuf)
                  (seq (S n) (length (tokens tbuf) - S n)) after) as [H _].
    rewrite Hrest in H. exact H.
  - pose proof (iterations_evolved
                  cfg (comment_char tbuf)
                  (seq (S n) (length (tokens tbuf) - S n)) after) as [_ H].
    rewrite Hrest in H. exact H.
Qed.

(** What the assignments keep: a directive once set stays set,
    [add_newline] once cleared stays cleared, and the classifiers are
    never assigned. *)
Lemma run_setter_keeps (s : Setter) (f : Token_Fix.t) :
  let f' := run_setter s f in
  (Token_Fix.ensure_ws_before f = true -> Token_Fix.ensure_ws_before f' = true)
  /\ (Token_Fix.ensure_ws_after f = true -> Token_Fix.ensure_ws_after f' = true)
  /\ (Token_Fix.ensure_trim_before f = true
      -> Token_Fix.ensure_trim_before f' = true)
  /\ (Token_Fix.ensure_trim_after f = true
      -> Token_Fix.ensure_trim_after f' = true)
  /\ (Token_Fix.add_newline f = false -> Token_Fix.add_newline f' = false)
  /\ (Token_Fix.replace_with_newline f = true
      -> Token_Fix.replace_with_newline f' = true)
  /\ (Token_Fix.delete f = true -> Token_Fix.delete f' = true)
  /\ Token_Fix.unary_operator f' = Token_Fix.unary_operator f
  /\ Token_Fix.binary_operator f' = Token_Fix.binary_operator f
  /\ Token_Fix.statement_terminator f' = Token_Fix.statement_terminator f
  /\ Token_Fix.flag_continuations f' = Token_Fix.flag_continuations f.
Proof. destruct s; simpl; repeat split; auto. Qed.

Lemma run_setters_keeps (ss : list Setter) (f : Token_Fix.t) :
  let f' := run_setters ss f in
  (Token_Fix.ensure_ws_before f = true -> Token_Fix.ensure_ws_before f' = true)
  /\ (Token_Fix.ensure_ws_after f = true -> Token_Fix.ensure_ws_after f' = true)
  /\ (Token_Fix.ensure_trim_before f = true
      -> Token_Fix.ensure_trim_before f' = true)
  /\ (Token_Fix.ensure_trim_after f = true
      -> Token_Fix.ensure_trim_after f' = true)
  /\ (Token_Fix.add_newline f = false -> Token_Fix.add_newline f' = false)
  /\ (Token_Fix.replace_with_newline f = true
      -> Token_Fix.replace_with_newline f' = true)
  /\ (Token_Fix.delete f = true -> Token_Fix.delete f' = true)
  /\ Token_Fix.unary_operator f' = Token_Fix.unary_operator f
  /\ Token_Fix.binary_operator f' = Token_Fix.binary_operator f
  /\ Token_Fix.statement_terminator f' = Token_Fix.statement_terminator f
  /\ Token_Fix.flag_continuations f' = Token_Fix.flag_continuations f.
Proof.
  revert f. induction ss as [|s ss IH]; intros f; simpl.
  - repeat split; auto.
  - specialize (IH (run_setter s f)). simpl in IH.
    pose proof (run_setter_keeps s f) as Hs. simpl in Hs.
    destruct IH as (I1 & I2 & I3 & I4 & I5 & I6 & I7 & I8 & I9 & I10 & I11).
    destruct Hs as (S1 & S2 & S3 & S4 & S5 & S6 & S7 & S8 & S9 & S10 & S11).
    repeat split; auto; congruence.
Qed.

(** Without [delete = True] among the assignments, [delete] is as it was. *)
Lemma run_setters_not_delete (ss : list Setter) (f : Token_Fix.t) :
  Forall not_delete ss ->
  Token_Fix.delete (run_setters ss f) = Token_Fix.delete f.
Proof.
  revert f. induction ss as [|s ss IH]; intros f Hss; simpl; [reflexivity|].
  inversion Hss as [|? ? Hs Hrest]; subst.
  rewrite IH by assumption.
  destruct s; try reflexivity. exfalso. apply Hs. reflexivity.
Qed.


(** ** Stage 3: the turn of one token, taken apart *)

Lemma st_tokens_recognise_justification tok st :
  st_tokens (recognise_justification tok st) = st_tokens st.
Proof. unfold recognise_justification. repeat case_match; reflexivity. Qed.

Lemma st_tokens_copyright_check cfg tok st :
  st_tokens (state_of (copyright_check cfg tok st)) = st_tokens st.
Proof. unfold copyright_check. repeat case_match; reflexivity. Qed.

Lemma iteration_Returned cfg comment_chars n st token st' :
  st_tokens st !! n = Some token ->
  anonymous token = false ->
  iteration cfg comment_chars n st = Returned st' ->
  let nb := neighbours (st_tokens st) n token in
  let st0 :=
    recognise_justification
      token (with_indent (track_statement token (st_indent st)) st) in
  exists s1 s2,
    copyright_check cfg token st0 = Returned s1
    /\ token_rules cfg comment_chars n token nb s1 = Returned s2
    /\ indentation_check cfg n token
                         (dangerous_continuation_check cfg n token nb s2)
       = Returned st'
    /\ st_tokens s1 = st_tokens st.
Proof.
  intros Hn Hanon Hrun nb st0. unfold iteration in Hrun.
  rewrite Hn, Hanon in Hrun. fold nb st0 in Hrun.
  apply bind_Returned in Hrun as (s1 & H1 & Hrun).
  apply bind_Returned in Hrun as (s2 & H2 & Hrun).
  exists s1, s2. repeat split; try assumption.
  pose proof (st_tokens_copyright_check cfg token st0) as H.
  rewrite H1 in H. simpl in H. rewrite H. subst st0.
  rewrite st_tokens_recognise_justification. reflexivity.
Qed.


Lemma touched_keeps A (t t' : Token) :
  touched A t t' ->
  static_eq t t'
  /\ (Token_Fix.ensure_ws_before (fix_ t) = true
      -> Token_Fix.ensure_ws_before (fix_ t') = true)
  /\ (Token_Fix.ensure_ws_after (fix_ t) = true
      -> Token_Fix.ensure_ws_after (fix_ t') = true)
  /\ (Token_Fix.ensure_trim_before (fix_ t) = true
      -> Token_Fix.ensure_trim_before (fix_ t') = true)
  /\ (Token_Fix.ensure_trim_after (fix_ t) = true
      -> Token_Fix.ensure_trim_after (fix_ t') = true)
  /\ (Token_Fix.add_newline (fix_ t) = false
      -> Token_Fix.add_newline (fix_ t') = false)
  /\ (Token_Fix.replace_with_newline (fix_ t) = true
      -> Token_Fix.replace_with_newline (fix_ t') = true)
  /\ (Token_Fix.delete (fix_ t) = true -> Token_Fix.delete (fix_ t') = true)
  /\ Token_Fix.statement_terminator (fix_ t')
     = Token_Fix.statement_terminator (fix_ t)
  /\ Token_Fix.flag_continuations (fix_ t')
     = Token_Fix.flag_continuations (fix_ t).
Proof.
  intros [S (ss & _ & E)]. split; [exact S|]. rewrite E.
  pose proof (run_setters_keeps ss (fix_ t)) as H. simpl in H. tauto.
Qed.

Lemma flagged_at_most_keeps (t t' : Token) :
  flagged_at_most t t' ->
  static_eq t t' /\ raw_text t' = raw_text t
  /\ Token_Fix.delete (fix_ t') = Token_Fix.delete (fix_ t)
  /\ Token_Fix.statement_terminator (fix_ t')
     = Token_Fix.statement_terminator (fix_ t)
  /\ Token_Fix.flag_continuations (fix_ t')
     = Token_Fix.flag_continuations (fix_ t).
Proof. intros [-> | ->]; repeat split. Qed.

Lemma lookup_modify_fix_eq n f st :
  st_tokens (modify_fix n f st) !! n
  = (fun tok => set_fix (f (fix_ tok)) tok) <$> st_tokens st !! n.
Proof. apply list_lookup_alter_eq. Qed.

Lemma lookup_modify_fix_ne n m f st :
  n <> m -> st_tokens (modify_fix n f st) !! m = st_tokens st !! m.
Proof. intros H. apply list_lookup_alter_ne. exact H. Qed.

(** ** Stage 3: comma and assignment *)










(** ** Stage 3: continuations *)

(** A turn up to and including the rules by kind: messages are added, the
    token at hand is touched, and no other token is. *)
Lemma iteration_prefix_frames cfg comment_chars n st token s1 s2 :
  let nb := neighbours (st_tokens st) n token in
  let st0 :=
    recognise_justification
      token (with_indent (track_statement token (st_indent st)) st) in
  copyright_check cfg token st0 = Returned s1 ->
  token_rules cfg comment_chars n token nb s1 = Returned s2 ->
  frames any_message any_setter false n st s1
  /\ frames any_message any_setter false n st s2.
Proof.
  intros nb st0 H1 H2.
  assert (frames any_message any_setter false n st s1) as F1.
  { eapply frames_trans;
      [apply frames_with_indent, frames_refl|].
    eapply frames_trans;
      [apply (recognise_justification_frames _ _ _ n token); exact I|].
    fold st0.
    pose proof (copyright_check_frames
                  any_message any_setter false cfg n token
                  (fun _ _ => I) st0 (fun _ _ _ _ => I)) as F.
    rewrite H1 in F. exact F. }
  split; [exact F1|].
  eapply frames_trans; [exact F1|].
  pose proof (token_rules_frames
                any_message cfg comment_chars n token (fun _ _ => I)
                any_setter false nb s1 (fun _ => I) (fun _ _ => I)) as F.
  rewrite H2 in F. exact F.
Qed.

Lemma iteration_dangerous cfg comment_chars n st token nx st' :
  st_tokens st !! n = Some token ->
  anonymous token = false ->
  Token_Fix.flag_continuations (fix_ token) = true ->
  st_tokens st !! S n = Some nx ->
  line (location nx) = line (location token) ->
  kind nx = "CONTINUATION" ->
  iteration cfg comment_chars n st = Returned st' ->
  let enabled := active cfg "dangerous_continuation" in
  (exists new,
      st_mh st' = (st_mh st ++ new)%list
      /\ In (Style_issue (At (location nx))
                         "this continuation is dangerously misleading"
                         (Some enabled)) new)
  /\ (exists t', st_tokens st' !! n = Some t'
                 /\ Token_Fix.add_newline (fix_ t') = false)
  /\ st_tokens st' !! S n
     = Some (if enabled
             then set_fix (Token_Fix.set_replace_with_newline true (fix_ nx))
                          nx
             else nx).
Proof.
  intros Hn Hanon Hflag Hnx Hline Hkind Hrun enabled.
  destruct (iteration_Returned _ _ _ _ _ _ Hn Hanon Hrun)
    as (s1 & s2 & Hcopy & Hrules & Hrest & _).
  destruct (iteration_prefix_frames _ _ _ _ _ _ _ Hcopy Hrules) as [_ F2].
  set (nb := neighbours (st_tokens st) n token) in *.
  assert (next_in_line nb = Some nx) as Hnext.
  { apply neighbours_next_in_line. repeat split; try assumption.
    rewrite Hkind. discriminate. }
  (* the state in which the continuation check runs *)
  destruct (frames_mh _ _ _ _ _ _ F2) as (new2 & Hmh2 & _).
  pose proof (frames_next_untouched _ _ _ _ _ F2) as Hnx2.
  rewrite Hnx in Hnx2.
  pose proof (frames_here _ _ _ _ _ _ F2) as Hn2.
  rewrite Hn in Hn2. unfold both in Hn2.
  destruct (st_tokens s2 !! n) as [t2|] eqn:Ht2; [|contradiction].
  (* the continuation check *)
  set (d := dangerous_continuation_check cfg n token nb s2) in *.
  assert (st_mh d
          = (st_mh s2
             ++ [Style_issue (At (location nx))
                             "this continuation is dangerously misleading"
                             (Some enabled)])%list
          /\ st_tokens d !! n
             = Some (set_fix (Token_Fix.set_add_newline false (fix_ t2)) t2)
          /\ st_tokens d !! S n
             = Some (if enabled
                     then set_fix (Token_Fix.set_replace_with_newline
                                     true (fix_ nx)) nx
                     else nx)) as (Hmhd & Hnd & Hnxd).
  { subst d. unfold dangerous_continuation_check.
    rewrite Hnext, Hflag, Hkind. simpl. subst enabled.
    destruct (active cfg "dangerous_continuation"); simpl.
    - split; [reflexivity|]. split.
      + rewrite list_lookup_alter_ne by lia.
        rewrite list_lookup_alter_eq, Ht2. reflexivity.
      + rewrite list_lookup_alter_eq.
        rewrite list_lookup_alter_ne by lia. rewrite Hnx2. reflexivity.
    - split; [reflexivity|]. split.
      + rewrite list_lookup_alter_eq, Ht2. reflexivity.
      + rewrite list_lookup_alter_ne by lia. exact Hnx2. }
  (* the indentation check *)
  pose proof (indentation_check_frames
                any_message any_setter false cfg n token (fun _ _ => I) d
                (fun _ => I)) as F3.
  rewrite Hrest in F3. simpl in F3.
  destruct (frames_mh _ _ _ _ _ _ F3) as (new3 & Hmh3 & _).
  split; [|split].
  - eexists. split.
    + rewrite Hmh3, Hmhd, Hmh2, <- !app_assoc. reflexivity.
    + apply in_or_app. right. apply in_or_app. left. left. reflexivity.
  - pose proof (frames_here _ _ _ _ _ _ F3) as H. rewrite Hnd in H.
    unfold both in H.
    destruct (st_tokens st' !! n) as [t'|]; [|contradiction].
    apply touched_keeps in H. exists t'. split; [reflexivity|].
    apply H. reflexivity.
  - rewrite (frames_next_untouched _ _ _ _ _ F3). exact Hnxd.
Qed.


(** C5, as amended.  For every token that is not anonymous, carries
    [flag_continuations] and is followed on its line by a CONTINUATION,
    once stage 3 has returned: "this continuation is dangerously
    misleading" has been reported at the continuation, with [fixed] true
    exactly when [dangerous_continuation] is active; the token's
    [add_newline] is cleared either way; and the turn of the token leaves
    the continuation as it found it when the rule is not active and sets
    its [replace_with_newline] when it is, which then stays set. *)
Theorem C5_dangerous_continuation
        (mh : Message_Handler) (cfg : Config) (tbuf : Token_Buffer)
        (is_embedded : bool) (final : State) (n : nat) (token nx : Token) :
  stage_3_analysis mh cfg tbuf is_embedded = Returned final ->
  tokens tbuf !! n = Some token ->
  anonymous token = false ->
  Token_Fix.flag_continuations (fix_ token) = true ->
  tokens tbuf !! S n = Some nx ->
  line (location nx) = line (location token) ->
  kind nx = "CONTINUATION" ->
  let enabled := active cfg "dangerous_continuation" in
  let init := initial_state mh cfg tbuf is_embedded in
  (exists new,
      st_mh final = (mh ++ new)%list
      /\ In (Style_issue (At (location nx))
                         "this continuation is dangerously misleading"
                         (Some enabled)) new)
  /\ (exists t', st_tokens final !! n = Some t'
                 /\ Token_Fix.add_newline (fix_ t') = false)
  /\ (exists before after,
         iterations cfg (comment_char tbuf) (seq 0 n) init = Returned before
         /\ iteration cfg (comment_char tbuf) n before = Returned after
         /\ st_tokens before !! S n = Some nx
         /\ st_tokens after !! S n
            = Some (if enabled
                    then set_fix (Token_Fix.set_replace_with_newline
                                    true (fix_ nx)) nx
                    else nx))
  /\ (enabled = true ->
      exists t', st_tokens final !! S n = Some t'
                 /\ Token_Fix.replace_with_newline (fix_ t') = true).
Proof.
  intros Hrun Hn Hanon Hflag Hnx Hline Hkind enabled init.
  destruct (stage_3_split _ _ _ _ _ _ _ Hrun Hn)
    as (before & after & Hb & Hturn & Hrest & Hbn & Hbafter & Hfinal
        & [(newb & Hmhb) _] & [(newf & Hmhf) Htokf]).
  unfold both in Hbn.
  destruct (st_tokens before !! n) as [tn|] eqn:Htn; [|contradiction].
  apply flagged_at_most_keeps in Hbn as (S & _ & _ & _ & Hfc).
  destruct S as (_ & _ & Hloc & _ & _ & Ha & _).
  assert (st_tokens before !! S n = Some nx) as Hbnx
      by (rewrite Hbafter by lia; exact Hnx).
  destruct (iteration_dangerous
              cfg (comment_char tbuf) n before tn nx after)
    as ((new & Hmh & Hin) & (t' & Ht' & Hadd) & Hnext);
    try assumption; try congruence.
  fold enabled in Hin, Hnext.
  split; [|split; [|split]].
  - eexists. split.
    + rewrite Hmhf, Hmh, Hmhb. simpl. rewrite <- !app_assoc. reflexivity.
    + apply in_or_app. right. apply in_or_app. left. exact Hin.
  - exists t'. rewrite Hfinal by lia. split; assumption.
  - exists before, after. repeat split; assumption.
  - intros Hen. specialize (Htokf (S n)). rewrite Hnext, Hen in Htokf.
    unfold both in Htokf.
    destruct (st_tokens final !! S n) as [t''|]; [|contradiction].
    apply touched_keeps in Htokf. exists t''. split; [reflexivity|].
    apply Htokf. reflexivity.
Qed.

Lemma C5_dangerous_continuation_witness :
  exists new,
    st_mh (state_of (stage_3_analysis [] (cfg_only [] [])
                                      (dangerous_buffer false) false))
    = ([] ++ new)%list
    /\ In (Style_issue (At (mkLocation "f.m" 1 2 4 "x ..."))
                       "this continuation is dangerously misleading"
                       (Some false)) new.
Proof.
  refine (proj1 (C5_dangerous_continuation
                   [] (cfg_only [] []) (dangerous_buffer false) false
                   (state_of (stage_3_analysis [] (cfg_only [] [])
                                               (dangerous_buffer false) false))
                   0%nat _
                   (plain_token "CONTINUATION" "..." 1 2 4 "x ..." false false)
                   _ _ _ _ _ _ _));
    reflexivity.
Defined.

(** The claim as it stands fails when the token that carries
    [flag_continuations] is anonymous: its turn of the loop ends before
    the check, nothing is reported and its [add_newline] stays set. *)
Lemma C5_counterexample :
  let cfg := cfg_only ["dangerous_continuation"] [] in
  let tbuf := dangerous_buffer true in
  exists token nx final,
    tokens tbuf !! 0%nat = Some token
    /\ Token_Fix.flag_continuations (fix_ token) = true
    /\ tokens tbuf !! 1%nat = Some nx
    /\ line (location nx) = line (location token)
    /\ kind nx = "CONTINUATION"
    /\ stage_3_analysis [] cfg tbuf false = Returned final
    /\ st_mh final = []
    /\ exists t', st_tokens final !! 0%nat = Some t'
                  /\ Token_Fix.add_newline (fix_ t') = true.
Proof.
  do 3 eexists. repeat split; try reflexivity.
  eexists. split; reflexivity.
Qed.

(** * Further properties of the code *)

(** ** The driver: when the file is written *)

(** [process_wp] hands a text to [write_modified] at most once, and only
    when [--fix] is given, the file has been lexed and parsed and stage 3
    has returned: without [--fix], after a lex error, without a parse
    tree, or when stage 3 raises, nothing is written. *)
Theorem process_wp_writes (frontend : Frontend) (wp : Work_Package) :
  (length (eff_written (effects_of (process_wp wp))) <= 1)%nat
  /\ (opt_fix wp = false -> eff_written (effects_of (process_wp wp)) = [])
  /\ (forall e eff, process_wp wp = Propagated e eff -> eff_written eff = [])
  /\ (forall mh,
         new_Token_Buffer (stages_1_2 wp (create_lexer wp))
                          (tabs_corrected wp (create_lexer wp)) (wp_cfg wp)
         = (mh, None) ->
         eff_written (effects_of (process_wp wp)) = [])
  /\ (forall text,
         In text (eff_written (effects_of (process_wp wp))) ->
         exists tbuf, text = replay tbuf).
Proof.
  unfold process_wp, rewrite_file.
  repeat split.
  - repeat case_match; simpl; lia.
  - intros Hfix. rewrite Hfix. repeat case_match; reflexivity.
  - intros e eff. repeat case_match; try discriminate.
    intros [= _ <-]. reflexivity.
  - intros mh Hlex. rewrite Hlex. repeat case_match; reflexivity.
  - intros text. repeat case_match; simpl; try tauto.
    intros [<- | []]. eexists. reflexivity.
Qed.

Lemma process_wp_writes_witness :
  eff_written
    (effects_of
       (@process_wp (toy_frontend (Some (assignment_buffer None)) true)
                    (mkWork_Package (cfg_only [] []) "f.m" None "a=1;" []
                                    false false false get_rules false false)))
  = [].
Proof.
  apply (proj1 (proj2 (process_wp_writes
                         (toy_frontend (Some (assignment_buffer None)) true)
                         (mkWork_Package (cfg_only [] []) "f.m" None "a=1;" []
                                         false false false get_rules
                                         false false)))).
  reflexivity.
Defined.

(** ** Stage 3: what it never changes *)

Lemma both_length (R : Token -> Token -> Prop) (l l' : list Token) :
  (forall j, both R (l !! j) (l' !! j)) -> length l = length l'.
Proof.
  intros H.
  destruct (Nat.lt_trichotomy (length l) (length l')) as [Hlt | [Heq | Hgt]];
    [exfalso | exact Heq | exfalso].
  - specialize (H (length l)). rewrite (lookup_ge_None_2 l) in H by lia.
    destruct (lookup_lt_is_Some_2 l' (length l) Hlt) as [t Ht].
    rewrite Ht in H. exact H.
  - specialize (H (length l')). rewrite (lookup_ge_None_2 l') in H by lia.
    destruct (lookup_lt_is_Some_2 l (length l') Hgt) as [t Ht].
    rewrite Ht in H. exact H.
Qed.

Lemma touched_classifiers A (t t' : Token) :
  touched A t t' ->
  Token_Fix.unary_operator (fix_ t') = Token_Fix.unary_operator (fix_ t)
  /\ Token_Fix.binary_operator (fix_ t') = Token_Fix.binary_operator (fix_ t)
  /\ Token_Fix.statement_terminator (fix_ t')
     = Token_Fix.statement_terminator (fix_ t)
  /\ Token_Fix.flag_continuations (fix_ t')
     = Token_Fix.flag_continuations (fix_ t).
Proof.
  intros [_ (ss & _ & E)]. rewrite E.
  pose proof (run_setters_keeps ss (fix_ t)) as H. simpl in H. tauto.
Qed.

(** However stage 3 ends, the buffer has the tokens it had: as many, and
    each with its kind, value, location, position flags, anonymous flag,
    AST link and block comment flag, and with the classifiers the parser
    gave it.  Only the directives of the fix records and the raw texts are
    assigned. *)
Theorem stage_3_keeps_tokens (mh : Message_Handler) (cfg : Config)
        (tbuf : Token_Buffer) (is_embedded : bool) :
  let final := state_of (stage_3_analysis mh cfg tbuf is_embedded) in
  length (st_tokens final) = length (tokens tbuf)
  /\ forall j t,
      tokens tbuf !! j = Some t ->
      exists t',
        st_tokens final !! j = Some t'
        /\ kind t' = kind t /\ value t' = value t
        /\ location t' = location t
        /\ first_in_line t' = first_in_line t
        /\ first_in_statement t' = first_in_statement t
        /\ anonymous t' = anonymous t
        /\ ast_link t' = ast_link t
        /\ block_comment t' = block_comment t
        /\ Token_Fix.unary_operator (fix_ t')
           = Token_Fix.unary_operator (fix_ t)
        /\ Token_Fix.binary_operator (fix_ t')
           = Token_Fix.binary_operator (fix_ t)
        /\ Token_Fix.statement_terminator (fix_ t')
           = Token_Fix.statement_terminator (fix_ t)
        /\ Token_Fix.flag_continuations (fix_ t')
           = Token_Fix.flag_continuations (fix_ t).
Proof.
  intros final.
  pose proof (iterations_evolved
                cfg (comment_char tbuf) (seq 0 (length (tokens tbuf)))
                (initial_state mh cfg tbuf is_embedded)) as [_ H].
  fold (stage_3_analysis mh cfg tbuf is_embedded) in H. fold final in H.
  change (st_tokens (initial_state mh cfg tbuf is_embedded))
    with (tokens tbuf) in H.
  split.
  - symmetry. eapply both_length. exact H.
  - intros j t Ht. specialize (H j). rewrite Ht in H. unfold both in H.
    destruct (st_tokens final !! j) as [t'|]; [|contradiction].
    exists t'. split; [reflexivity|].
    destruct (touched_classifiers _ _ _ H) as (? & ? & ? & ?).
    destruct H as [(? & ? & ? & ? & ? & ? & ? & ?) _].
    repeat split; assumption.
Qed.

(** ** Stage 3: where its messages go *)

(** Only the copyright check assigns the variables of the copyright
    header. *)
Lemma st_copyright_bind o (f : State -> Outcome) c :
  st_copyright (state_of o) = c ->
  (forall s, st_copyright s = c -> st_copyright (state_of (f s)) = c) ->
  st_copyright (state_of (bind o f)) = c.
Proof. intros Ho Hf. destruct o as [s | e s]; simpl in *; auto. Qed.

Lemma st_copyright_check_comment cfg comment_chars n token nb st :
  st_copyright (state_of (check_comment cfg comment_chars n token nb st))
  = st_copyright st.
Proof.
  unfold check_comment.
  destruct (active cfg "whitespace_comments"); [|reflexivity].
  destruct (raw_text token); [reflexivity|].
  apply st_copyright_bind.
  - repeat case_match; reflexivity.
  - intros st1 Hst1. repeat case_match; simpl; exact Hst1.
Qed.

Lemma st_copyright_token_rules cfg comment_chars n token nb st :
  st_copyright (state_of (token_rules cfg comment_chars n token nb st))
  = st_copyright st.
Proof.
  unfold token_rules.
  repeat case_match; try apply st_copyright_check_comment; simpl;
    unfold check_comma, check_colon, check_assignment, check_bra, check_ket,
    check_keyword, check_continuation, check_operator, check_annotation,
    check_newline;
    repeat case_match; reflexivity.
Qed.

Lemma st_copyright_dangerous_continuation_check cfg n token nb st :
  st_copyright (dangerous_continuation_check cfg n token nb st)
  = st_copyright st.
Proof.
  unfold dangerous_continuation_check. repeat case_match; simplify_eq;
    reflexivity.
Qed.

Lemma st_copyright_indentation_check cfg n token st :
  st_copyright (state_of (indentation_check cfg n token st))
  = st_copyright st.
Proof. unfold indentation_check. repeat case_match; reflexivity. Qed.

(** After the turn of a token, the comment remembered as the copyright
    notice is the one remembered before, or the token itself, which then
    is not anonymous. *)
Lemma iteration_copyright_token cfg comment_chars n st token :
  st_tokens st !! n = Some token ->
  let st' := state_of (iteration cfg comment_chars n st) in
  copyright_token (st_copyright st') = copyright_token (st_copyright st)
  \/ (anonymous token = false
      /\ copyright_token (st_copyright st') = Some token).
Proof.
  intros Hn st'. subst st'.
  destruct (anonymous token) eqn:Hanon.
  - left. erewrite iteration_anonymous by eassumption. simpl.
    rewrite st_copyright_recognise_justification. reflexivity.
  - unfold iteration. rewrite Hn, Hanon.
    set (st0 := recognise_justification
                  token
                  (with_indent (track_statement token (st_indent st)) st)).
    assert (st_copyright st0 = st_copyright st) as H0
        by (subst st0; rewrite st_copyright_recognise_justification;
            reflexivity).
    assert (forall s,
               st_copyright
                 (state_of
                    (bind (token_rules cfg comment_chars n token
                                       (neighbours (st_tokens st) n token) s)
                          (fun s2 =>
                             indentation_check
                               cfg n token
                               (dangerous_continuation_check
                                  cfg n token
                                  (neighbours (st_tokens st) n token) s2))))
               = st_copyright s) as Hrest.
    { intros s. apply st_copyright_bind.
      - apply st_copyright_token_rules.
      - intros s2 Hs2. rewrite st_copyright_indentation_check,
          st_copyright_dangerous_continuation_check. exact Hs2. }
    destruct (copyright_check cfg token st0) as [s1 | e s1] eqn:Hcheck;
      simpl; [rewrite Hrest|];
      unfold copyright_check in Hcheck;
      repeat case_match; simplify_eq; simpl;
        try (left; congruence);
        unfold copyright_comment; repeat case_match; simpl;
          first [left; congruence | right; split; congruence].
Qed.

Lemma fits_initial_state mh cfg tbuf is_embedded :
  fits (tokens tbuf) (initial_state mh cfg tbuf is_embedded).
Proof.
  split.
  - intros j. apply both_refl, touched_refl.
  - intros ct [=].
Qed.

(** One turn of the loop keeps the state fitting the buffer and puts its
    messages where [placed] says. *)
Lemma iteration_placed cfg comment_chars tokens0 n st :
  fits tokens0 st ->
  let st' := state_of (iteration cfg comment_chars n st) in
  fits tokens0 st'
  /\ exists new,
      st_mh st' = (st_mh st ++ new)%list /\ Forall (placed tokens0) new.
Proof.
  intros [Htok Hct] st'. subst st'.
  destruct (st_tokens st !! n) as [token|] eqn:Hn.
  2:{ unfold iteration. rewrite Hn. simpl. split; [split; assumption|].
      exists []. split; [symmetry; apply app_nil_r | constructor]. }
  pose proof (Htok n) as Hn0. rewrite Hn in Hn0. unfold both in Hn0.
  destruct (tokens0 !! n) as [t0|] eqn:Ht0; [|contradiction].
  pose proof (touched_keeps _ _ _ Hn0) as (S0 & _).
  destruct S0 as (_ & _ & Hloc & _ & _ & Hanon0 & _).
  assert (frames (placed tokens0) any_setter true n st
                 (state_of (iteration cfg comment_chars n st))) as F.
  { destruct (anonymous token) eqn:Hanon.
    - erewrite iteration_anonymous by eassumption. simpl.
      eapply frames_trans;
        [apply frames_with_indent, frames_refl|].
      apply (recognise_justification_frames _ _ _ n token).
      exists n, t0. split; [exact Ht0 | apply Hn0].
    - apply iteration_frames with (token := token); try assumption.
      + intros message fixed. exists n, t0.
        repeat split; try congruence. left. congruence.
      + exists n, t0. split; [exact Ht0 | apply Hn0].
      + intros ct message fixed Hc.
        destruct (Hct ct Hc) as (j & t & Hj & Ha & Hl).
        exists j, t. repeat split; try assumption. left. congruence.
      + intros nx Hnx. pose proof (Htok (S n)) as H1. rewrite Hnx in H1.
        unfold both in H1.
        destruct (tokens0 !! S n) as [nx0|] eqn:Hnx0; [|contradiction].
        destruct H1 as [(_ & _ & Hl & _) _].
        exists n, t0. repeat split; try congruence.
        right. exists nx0. repeat split; try congruence. right. reflexivity.
      + intros nx fixed Hnx. pose proof (Htok (S n)) as H1.
        rewrite Hnx in H1. unfold both in H1.
        destruct (tokens0 !! S n) as [nx0|] eqn:Hnx0; [|contradiction].
        destruct H1 as [(_ & _ & Hl & _) _].
        exists n, t0. repeat split; try congruence.
        right. exists nx0. repeat split; try congruence. left. reflexivity. }
  split; [|exact (frames_mh _ _ _ _ _ _ F)].
  split.
  - intros j. eapply both_trans; [apply touched_trans | apply Htok |].
    apply frames_evolved in F. apply F.
  - intros ct Hc.
    destruct (iteration_copyright_token cfg comment_chars n st token Hn)
      as [Hsame | [Hanon Hnew]].
    + apply Hct. rewrite <- Hsame. exact Hc.
    + rewrite Hnew in Hc. injection Hc as <-.
      exists n, t0. repeat split; congruence.
Qed.

Lemma iterations_placed cfg comment_chars tokens0 ns st :
  fits tokens0 st ->
  exists new,
    st_mh (state_of (iterations cfg comment_chars ns st))
    = (st_mh st ++ new)%list
    /\ Forall (placed tokens0) new.
Proof.
  revert st. induction ns as [|n ns IH]; intros st Hfits; simpl.
  - exists []. split; [symmetry; apply app_nil_r | constructor].
  - destruct (iteration_placed cfg comment_chars tokens0 n st Hfits)
      as (Hfits' & new1 & Hmh1 & Hnew1).
    destruct (iteration cfg comment_chars n st) as [s | e s]; simpl in *.
    + destruct (IH s Hfits') as (new2 & Hmh2 & Hnew2).
      exists (new1 ++ new2)%list. split.
      * rewrite Hmh2, Hmh1. symmetry. apply app_assoc.
      * apply Forall_app. split; assumption.
    + exists new1. split; assumption.
Qed.

(** However stage 3 ends, it has only added to the message handler, and
    what it added are style issues and justifications, never an error.  A
    style issue is placed at a token of the buffer that is not anonymous;
    or it is "this continuation is dangerously misleading" or
    "continuations should not start with binary operators", placed at the
    token that follows one.  A justification is for a token of the
    buffer. *)
Theorem stage_3_messages_placed (mh : Message_Handler) (cfg : Config)
        (tbuf : Token_Buffer) (is_embedded : bool) :
  exists new,
    st_mh (state_of (stage_3_analysis mh cfg tbuf is_embedded))
    = (mh ++ new)%list
    /\ Forall (placed (tokens tbuf)) new.
Proof.
  apply (iterations_placed
           cfg (comment_char tbuf) (tokens tbuf)
           (seq 0 (length (tokens tbuf)))
           (initial_state mh cfg tbuf is_embedded)).
  apply fits_initial_state.
Qed.

(** ** Stage 3: no contradicting directives *)

Lemma comma_setters_one_sided : one_sided comma_setters.
Proof. split; [left | right]; intros s [? ?]; assumption. Qed.

Lemma trim_setters_one_sided : one_sided trim_setters.
Proof. split; left; intros s [? ?]; assumption. Qed.

Lemma ws_setters_one_sided : one_sided ws_setters.
Proof. split; right; intros s [? ?]; assumption. Qed.

Ltac setter_in := split; discriminate.

(** The operator rule trims or puts spaces, not both. *)
Lemma check_operator_one_sided cfg n token nb :
  exists A,
    (A = trim_setters \/ A = ws_setters)
    /\ forall st,
        frames any_message A false n st (check_operator cfg n token nb st).
Proof.
  unfold check_operator.
  destruct (negb (active cfg "operator_whitespace"));
    [exists ws_setters; split; [right; reflexivity | intros; apply frames_refl]|].
  destruct (Token_Fix.unary_operator (fix_ token)).
  { exists trim_setters. split; [left; reflexivity|]. intros st.
    repeat case_match;
      repeat first
        [ apply frames_refl
        | apply frames_issue; [exact I|]
        | apply (frames_modify_fix _ _ _ _ _ _ Set_trim_before); [setter_in|]
        | apply (frames_modify_fix _ _ _ _ _ _ Set_trim_after); [setter_in|] ]. }
  destruct (Token_Fix.binary_operator (fix_ token));
    [|exists ws_setters; split; [right; reflexivity | intros; apply frames_refl]].
  destruct (Py.mem (value token) [".^"; "^"]).
  - exists trim_setters. split; [left; reflexivity|]. intros st.
    repeat case_match;
      repeat first
        [ apply frames_refl
        | apply frames_issue; [exact I|]
        | apply (frames_modify_fix _ _ _ _ _ _ Set_trim_before); [setter_in|]
        | apply (frames_modify_fix _ _ _ _ _ _ Set_trim_after); [setter_in|] ].
  - exists ws_setters. split; [right; reflexivity|]. intros st.
    repeat case_match;
      repeat first
        [ apply frames_refl
        | apply frames_issue; [exact I|]
        | apply (frames_modify_fix _ _ _ _ _ _ Set_ws_before); [setter_in|]
        | apply (frames_modify_fix _ _ _ _ _ _ Set_ws_after); [setter_in|] ].
Qed.

(** The rules by kind make their assignments from one of the three sets,
    which the token and the configuration determine. *)
Lemma token_rules_one_sided cfg comment_chars n token nb :
  exists A,
    (A = comma_setters \/ A = trim_setters \/ A = ws_setters)
    /\ forall st,
        frames any_message A false n st
               (state_of (token_rules cfg comment_chars n token nb st)).
Proof.
  unfold token_rules.
  destruct (String.eqb (kind token) "COMMA").
  { exists comma_setters. split; [tauto|]. intros st. simpl.
    apply check_comma_frames; intros; first [exact I | setter_in]. }
  destruct (String.eqb (kind token) "COLON").
  { exists trim_setters. split; [tauto|]. intros st. simpl.
    apply check_colon_frames; intros; first [exact I | setter_in]. }
  destruct (String.eqb (kind token) "ASSIGNMENT").
  { exists ws_setters. split; [tauto|]. intros st. simpl.
    apply check_assignment_frames; intros; first [exact I | setter_in]. }
  destruct (Py.mem (kind token) ["BRA"; "A_BRA"; "M_BRA"]).
  { exists trim_setters. split; [tauto|]. intros st. simpl.
    apply check_bra_frames; intros; first [exact I | setter_in]. }
  destruct (Py.mem (kind token) ["KET"; "A_KET"; "M_KET"]).
  { exists trim_setters. split; [tauto|]. intros st. simpl.
    apply check_ket_frames; intros; first [exact I | setter_in]. }
  destruct (String.eqb (kind token) "KEYWORD"
            && Py.mem (value token) KEYWORDS_WITH_WS).
  { exists ws_setters. split; [tauto|]. intros st. simpl.
    apply check_keyword_frames; intros; first [exact I | setter_in]. }
  destruct (String.eqb (kind token) "COMMENT").
  { exists ws_setters. split; [tauto|]. intros st.
    apply check_comment_frames; intros; first [exact I | setter_in]. }
  destruct (String.eqb (kind token) "CONTINUATION").
  { exists ws_setters. split; [tauto|]. intros st. simpl.
    apply check_continuation_frames; intros; first [exact I | setter_in]. }
  destruct (String.eqb (kind token) "OPERATOR").
  { destruct (check_operator_one_sided cfg n token nb) as (A & HA & HF).
    exists A. split; [tauto|]. intros st. simpl. apply HF. }
  destruct (String.eqb (kind token) "ANNOTATION").
  { exists ws_setters. split; [tauto|]. intros st. simpl.
    apply check_annotation_frames; intros; first [exact I | setter_in]. }
  destruct (String.eqb (kind token) "NEWLINE").
  { exists ws_setters. split; [tauto|]. intros st. simpl.
    apply check_newline_frames; intros; first [exact I | setter_in]. }
  exists ws_setters. split; [tauto|]. intros st. apply frames_refl.
Qed.

(** The turn of a token makes its assignments to the token from one of the
    three sets. *)
Lemma iteration_one_sided cfg comment_chars n st token :
  st_tokens st !! n = Some token ->
  exists A,
    one_sided A
    /\ frames any_message A true n st
              (state_of (iteration cfg comment_chars n st)).
Proof.
  intros Hn. destruct (anonymous token) eqn:Hanon.
  { exists ws_setters. split; [apply ws_setters_one_sided|].
    erewrite iteration_anonymous by eassumption. simpl.
    eapply frames_trans; [apply frames_with_indent, frames_refl|].
    apply (recognise_justification_frames _ _ _ n token). exact I. }
  destruct (token_rules_one_sided
              cfg comment_chars n token (neighbours (st_tokens st) n token))
    as (A & HA & HF).
  assert (one_sided A /\ A Clear_add_newline
          /\ forall spaces, A (Set_indent spaces)) as (Hone & Hadd & Hind).
  { destruct HA as [-> | [-> | ->]];
      (split; [auto using comma_setters_one_sided, trim_setters_one_sided,
                ws_setters_one_sided|]);
      split; try intros spaces; setter_in. }
  exists A. split; [exact Hone|].
  unfold iteration. rewrite Hn, Hanon.
  set (nb := neighbours (st_tokens st) n token) in *.
  set (st0 := recognise_justification
                token (with_indent (track_statement token (st_indent st)) st)).
  assert (frames any_message A true n st st0) as H0.
  { eapply frames_trans; [apply frames_with_indent, frames_refl|].
    apply (recognise_justification_frames _ _ _ n token). exact I. }
  apply frames_bind.
  - eapply frames_trans; [exact H0|].
    apply copyright_check_frames; intros; exact I.
  - intros s1 Hs1. apply frames_bind.
    + eapply frames_trans; [exact Hs1|].
      eapply frames_weaken; [| | |apply HF]; auto.
    + intros s2 Hs2. eapply frames_trans; [exact Hs2|].
      eapply frames_trans.
      * apply dangerous_continuation_check_frames;
          first [exact Hadd | intros; exact I].
      * apply indentation_check_frames;
          first [exact Hind | intros; exact I].
Qed.

Lemma run_setters_without (X : Setter) (get : Token_Fix.t -> bool)
      (ss : list Setter) (f : Token_Fix.t) :
  (forall s g, s <> X -> get (run_setter s g) = get g) ->
  Forall (fun s => s <> X) ss ->
  get (run_setters ss f) = get f.
Proof.
  intros Hget. revert f.
  induction ss as [|s ss IH]; intros f Hss; simpl; [reflexivity|].
  inversion Hss as [|? ? Hs Hrest]; subst.
  rewrite IH by assumption. apply Hget. exact Hs.
Qed.

Lemma run_setters_no_ws_before ss f :
  Forall (fun s => s <> Set_ws_before) ss ->
  Token_Fix.ensure_ws_before (run_setters ss f) = Token_Fix.ensure_ws_before f.
Proof.
  apply run_setters_without.
  intros s g Hs. destruct s; try reflexivity. contradiction.
Qed.

Lemma run_setters_no_ws_after ss f :
  Forall (fun s => s <> Set_ws_after) ss ->
  Token_Fix.ensure_ws_after (run_setters ss f) = Token_Fix.ensure_ws_after f.
Proof.
  apply run_setters_without.
  intros s g Hs. destruct s; try reflexivity. contradiction.
Qed.

Lemma run_setters_no_trim_before ss f :
  Forall (fun s => s <> Set_trim_before) ss ->
  Token_Fix.ensure_trim_before (run_setters ss f)
  = Token_Fix.ensure_trim_before f.
Proof.
  apply run_setters_without.
  intros s g Hs. destruct s; try reflexivity. contradiction.
Qed.

Lemma run_setters_no_trim_after ss f :
  Forall (fun s => s <> Set_trim_after) ss ->
  Token_Fix.ensure_trim_after (run_setters ss f)
  = Token_Fix.ensure_trim_after f.
Proof.
  apply run_setters_without.
  intros s g Hs. destruct s; try reflexivity. contradiction.
Qed.

(** Once stage 3 has returned, a token that came without whitespace
    directives does not carry [ensure_ws_before] together with
    [ensure_trim_before], nor [ensure_ws_after] together with
    [ensure_trim_after]: the replayer is never asked for a space and for
    no space at the same place of a token. *)
Theorem stage_3_directives_one_sided
        (mh : Message_Handler) (cfg : Config) (tbuf : Token_Buffer)
        (is_embedded : bool) (final : State) (n : nat) (token : Token) :
  stage_3_analysis mh cfg tbuf is_embedded = Returned final ->
  tokens tbuf !! n = Some token ->
  Token_Fix.ensure_ws_before (fix_ token) = false ->
  Token_Fix.ensure_ws_after (fix_ token) = false ->
  Token_Fix.ensure_trim_before (fix_ token) = false ->
  Token_Fix.ensure_trim_after (fix_ token) = false ->
  exists t',
    st_tokens final !! n = Some t'
    /\ Token_Fix.ensure_ws_before (fix_ t')
       && Token_Fix.ensure_trim_before (fix_ t') = false
    /\ Token_Fix.ensure_ws_after (fix_ t')
       && Token_Fix.ensure_trim_after (fix_ t') = false.
Proof.
  intros Hrun Hn Hwb Hwa Htb Hta.
  destruct (stage_3_split _ _ _ _ _ _ _ Hrun Hn)
    as (before & after & _ & Hturn & _ & Hbefore & _ & Hfinal & _ & _).
  unfold both in Hbefore.
  destruct (st_tokens before !! n) as [tn|] eqn:Htn; [|contradiction].
  assert (Token_Fix.ensure_ws_before (fix_ tn) = false
          /\ Token_Fix.ensure_ws_after (fix_ tn) = false
          /\ Token_Fix.ensure_trim_before (fix_ tn) = false
          /\ Token_Fix.ensure_trim_after (fix_ tn) = false)
    as (Hwb' & Hwa' & Htb' & Hta').
  { destruct Hbefore as [-> | ->]; simpl; auto. }
  destruct (iteration_one_sided cfg (comment_char tbuf) n before tn Htn)
    as (A & [Hbefore_side Hafter_side] & F).
  rewrite Hturn in F. simpl in F. apply frames_here in F.
  rewrite Htn in F. unfold both in F.
  rewrite Hfinal by lia.
  destruct (st_tokens after !! n) as [t'|]; [|contradiction].
  destruct F as [_ (ss & Hss & Hfix)].
  exists t'. split; [reflexivity|]. rewrite Hfix. split.
  - destruct Hbefore_side as [H | H].
    + rewrite run_setters_no_ws_before, Hwb'; [reflexivity|].
      eapply Forall_impl; [exact Hss | exact H].
    + rewrite (run_setters_no_trim_before ss), Htb';
        [apply andb_false_r|].
      eapply Forall_impl; [exact Hss | exact H].
  - destruct Hafter_side as [H | H].
    + rewrite run_setters_no_ws_after, Hwa'; [reflexivity|].
      eapply Forall_impl; [exact Hss | exact H].
    + rewrite (run_setters_no_trim_after ss), Hta';
        [apply andb_false_r|].
      eapply Forall_impl; [exact Hss | exact H].
Qed.

Lemma stage_3_directives_one_sided_witness :
  exists t',
    st_tokens (state_of (stage_3_analysis
                           [] (cfg_only ["whitespace_comma"] [])
                           comma_buffer false)) !! 1%nat = Some t'
    /\ Token_Fix.ensure_ws_before (fix_ t')
       && Token_Fix.ensure_trim_before (fix_ t') = false
    /\ Token_Fix.ensure_ws_after (fix_ t')
       && Token_Fix.ensure_trim_after (fix_ t') = false.
Proof.
  apply (stage_3_directives_one_sided
           [] (cfg_only ["whitespace_comma"] []) comma_buffer false
           (state_of (stage_3_analysis [] (cfg_only ["whitespace_comma"] [])
                                       comma_buffer false))
           1%nat (plain_token "COMMA" "," 1 1 1 "a,  b" false false));
    reflexivity.
Defined.

(** ** Stage 3: with every rule switched off *)

Section All_Rules_Off.

Variable cfg : Config.
Hypothesis rules_off : forall rule, active cfg rule = false.

Lemma token_rules_off comment_chars n token nb st :
  token_rules cfg comment_chars n token nb st = Returned st.
Proof.
  unfold token_rules, check_comma, check_colon, check_assignment, check_bra,
    check_ket, check_keyword, check_comment, check_continuation,
    check_operator, check_annotation, check_newline.
  rewrite !rules_off, ?andb_false_r. simpl.
  repeat case_match; reflexivity.
Qed.

Lemma indentation_check_off n token st :
  indentation_check cfg n token st = Returned st.
Proof. unfold indentation_check. rewrite rules_off. reflexivity. Qed.

Lemma copyright_check_off token st :
  in_copyright_notice (st_copyright st) = false ->
  copyright_check cfg token st = Returned st.
Proof. intros H. unfold copyright_check. rewrite H. reflexivity. Qed.

Lemma cleared_trans t1 t2 t3 : cleared t1 t2 -> cleared t2 t3 -> cleared t1 t3.
Proof.
  unfold cleared. intros [-> | [H1 ->]] [-> | [H2 ->]]; auto.
Qed.

(** A turn of the loop with every rule off: it returns, the copyright
    header stays closed, and all it can do is register a justification,
    clear [add_newline] of a flagged token and report its continuation. *)
Lemma iteration_off comment_chars n st :
  in_copyright_notice (st_copyright st) = false ->
  exists st',
    iteration cfg comment_chars n st = Returned st'
    /\ in_copyright_notice (st_copyright st') = false
    /\ (exists new,
           st_mh st' = (st_mh st ++ new)%list
           /\ Forall unconditional_message new)
    /\ forall j, both cleared (st_tokens st !! j) (st_tokens st' !! j).
Proof.
  intros Hclosed. unfold iteration.
  destruct (st_tokens st !! n) as [token|] eqn:Hn.
  2:{ exists st. repeat split; try assumption.
      - exists []. split; [symmetry; apply app_nil_r | constructor].
      - intros j. apply both_refl. intros t. left. reflexivity. }
  set (nb := neighbours (st_tokens st) n token).
  set (st0 := recognise_justification
                token (with_indent (track_statement token (st_indent st)) st)).
  assert (in_copyright_notice (st_copyright st0) = false
          /\ st_tokens st0 = st_tokens st
          /\ exists new,
              st_mh st0 = (st_mh st ++ new)%list
              /\ Forall unconditional_message new) as (Hc0 & Ht0 & Hm0).
  { subst st0. unfold recognise_justification.
    repeat case_match; simpl; repeat split; try assumption.
    - exists [Justification token]. split; [reflexivity|].
      constructor; [|constructor]. right. eexists. reflexivity.
    - exists []. split; [symmetry; apply app_nil_r | constructor].
    - exists []. split; [symmetry; apply app_nil_r | constructor]. }
  destruct (anonymous token).
  { exists st0. repeat split; try assumption.
    intros j. rewrite Ht0. apply both_refl. intros t. left. reflexivity. }
  rewrite (copyright_check_off token st0 Hc0). simpl.
  rewrite token_rules_off. simpl. rewrite indentation_check_off.
  eexists. split; [reflexivity|].
  destruct Hm0 as (new0 & Hmh0 & Hnew0).
  unfold dangerous_continuation_check.
  destruct (next_in_line nb) as [nx|];
    [|repeat split; try assumption;
      [exists new0; split; assumption
      |intros j; rewrite Ht0; apply both_refl; intros t; left; reflexivity]].
  destruct (Token_Fix.flag_continuations (fix_ token)
            && String.eqb (kind nx) "CONTINUATION") eqn:Hflag;
    [|repeat split; try assumption;
      [exists new0; split; assumption
      |intros j; rewrite Ht0; apply both_refl; intros t; left; reflexivity]].
  rewrite rules_off. simpl. repeat split; try assumption.
  - eexists. split;
      [simpl; unfold style_issue; rewrite Hmh0, <- app_assoc; reflexivity|].
    apply Forall_app. split; [exact Hnew0|].
    constructor; [|constructor]. left. eexists. reflexivity.
  - intros j. rewrite Ht0. destruct (Nat.eq_dec j n) as [-> | Hne].
    + rewrite list_lookup_alter_eq, Hn. simpl. right.
      apply andb_true_iff in Hflag as [Hflag _]. split; [exact Hflag|].
      reflexivity.
    + rewrite list_lookup_alter_ne by congruence.
      apply both_refl. intros t. left. reflexivity.
Qed.

Lemma iterations_off comment_chars ns st :
  in_copyright_notice (st_copyright st) = false ->
  exists st',
    iterations cfg comment_chars ns st = Returned st'
    /\ (exists new,
           st_mh st' = (st_mh st ++ new)%list
           /\ Forall unconditional_message new)
    /\ forall j, both cleared (st_tokens st !! j) (st_tokens st' !! j).
Proof.
  revert st. induction ns as [|n ns IH]; intros st Hclosed; simpl.
  - exists st. repeat split.
    + exists []. split; [symmetry; apply app_nil_r | constructor].
    + intros j. apply both_refl. intros t. left. reflexivity.
  - destruct (iteration_off comment_chars n st Hclosed)
      as (s & Hs & Hclosed' & (new1 & Hmh1 & Hnew1) & Htok1).
    rewrite Hs. simpl.
    destruct (IH s Hclosed') as (st' & Hst' & (new2 & Hmh2 & Hnew2) & Htok2).
    exists st'. repeat split; [exact Hst' | |].
    + exists (new1 ++ new2)%list. split.
      * rewrite Hmh2, Hmh1. symmetry. apply app_assoc.
      * apply Forall_app. split; assumption.
    + intros j. eapply both_trans; [apply cleared_trans | apply Htok1 |].
      apply Htok2.
Qed.

End All_Rules_Off.

(** With every rule switched off, stage 3 is still not silent: it returns
    on any buffer, and what it adds to the message handler are the
    justifications and "this continuation is dangerously misleading" with
    [fixed] false, the one check that does not ask the configuration
    whether to report; the tokens are as they were, but for [add_newline]
    cleared on tokens that carry [flag_continuations]. *)
Theorem stage_3_all_rules_off (mh : Message_Handler) (cfg : Config)
        (tbuf : Token_Buffer) (is_embedded : bool) :
  (forall rule, active cfg rule = false) ->
  exists final new,
    stage_3_analysis mh cfg tbuf is_embedded = Returned final
    /\ st_mh final = (mh ++ new)%list
    /\ Forall unconditional_message new
    /\ forall j, both cleared (tokens tbuf !! j) (st_tokens final !! j).
Proof.
  intros Hoff.
  destruct (iterations_off
              cfg Hoff (comment_char tbuf) (seq 0 (length (tokens tbuf)))
              (initial_state mh cfg tbuf is_embedded))
    as (final & Hrun & (new & Hmh & Hnew) & Htok).
  { simpl. rewrite Hoff. reflexivity. }
  exists final, new. repeat split; assumption.
Qed.

Lemma stage_3_all_rules_off_witness :
  exists final new,
    stage_3_analysis [] (cfg_only [] []) (dangerous_buffer false) false
    = Returned final
    /\ st_mh final = ([] ++ new)%list
    /\ Forall unconditional_message new
    /\ forall j, both cleared (tokens (dangerous_buffer false) !! j)
                      (st_tokens final !! j).
Proof.
  apply (stage_3_all_rules_off [] (cfg_only [] []) (dangerous_buffer false)
                               false).
  reflexivity.
Defined.

(** ** Stage 2: the line rules over a file *)

Lemma on_line_get_rules (cfg : Config) :
  on_line (build_library cfg get_rules) = line_rules cfg false.
Proof.
  unfold line_rules. simpl.
  destruct (active cfg "line_length"); reflexivity.
Qed.

(** Applying a rule of the registry to a line adds what the rule says to
    the messages and leaves the instance as it was, but for [is_blank] of
    [consecutive_blanks], which now tells whether this line is blank. *)
Lemma apply_line_Length cfg mh filename k line :
  apply_line Rule_Line_Length mh cfg filename k line
  = (Rule_Line_Length,
     (mh ++ says Rule_Line_Length cfg filename k line)%list).
Proof.
  unfold says, apply_line, Rule_Line_Length. simpl.
  unfold Rule_Line_Length_apply.
  destruct (Py.len line >? line_length cfg); simpl;
    [reflexivity | rewrite app_nil_r; reflexivity].
Qed.

Lemma apply_line_Blank_Lines cfg mh filename k line b :
  apply_line (blank_rule b) mh cfg filename k line
  = (blank_rule (blank line),
     (mh ++ says (blank_rule b) cfg filename k line)%list).
Proof.
  unfold says, apply_line, blank_rule, blank. simpl.
  unfold Rule_Line_Blank_Lines_apply.
  destruct (Z.eqb (Py.len (Py.strip line)) 0); simpl;
    [destruct b; simpl|]; try rewrite app_nil_r; reflexivity.
Qed.

Lemma apply_line_Tabs cfg mh filename k line :
  apply_line Rule_Line_Tabs mh cfg filename k line
  = (Rule_Line_Tabs, (mh ++ says Rule_Line_Tabs cfg filename k line)%list).
Proof.
  unfold says, apply_line, Rule_Line_Tabs. simpl.
  unfold Rule_Line_Tabs_apply.
  destruct (Py.contains_char "009"%char line); simpl;
    [reflexivity | rewrite app_nil_r; reflexivity].
Qed.

Lemma apply_line_Trailing_Whitesapce cfg mh filename k line :
  apply_line Rule_Line_Trailing_Whitesapce mh cfg filename k line
  = (Rule_Line_Trailing_Whitesapce,
     (mh ++ says Rule_Line_Trailing_Whitesapce cfg filename k line)%list).
Proof.
  unfold says, apply_line, Rule_Line_Trailing_Whitesapce. simpl.
  unfold Rule_Line_Trailing_Whitesapce_apply.
  destruct (Py.endswith_char " "%char line); simpl;
    [destruct (Z.eqb (Py.len (Py.strip line)) 0); simpl; reflexivity
    | rewrite app_nil_r; reflexivity].
Qed.

(** What [consecutive_blanks] says: the line is a surplus blank line when
    it is blank and the line before it was; nothing otherwise. *)
Lemma says_Blank_Lines cfg filename k line b :
  says (blank_rule b) cfg filename k line
  = if b && blank line then [surplus_blank filename k] else [].
Proof.
  unfold says, apply_line, blank_rule, blank. simpl.
  unfold Rule_Line_Blank_Lines_apply.
  destruct (Z.eqb (Py.len (Py.strip line)) 0), b; reflexivity.
Qed.

(** Whatever a rule of the registry says about a line is about that line,
    and only [consecutive_blanks] speaks of surplus blank lines. *)
Lemma says_about_the_line cfg filename k line rule :
  (rule = Rule_Line_Length \/ (exists b, rule = blank_rule b)
   \/ rule = Rule_Line_Tabs \/ rule = Rule_Line_Trailing_Whitesapce) ->
  Forall (fun m => message_line m = Some k) (says rule cfg filename k line).
Proof.
  intros [-> | [[b ->] | [-> | ->]]].
  - unfold says, apply_line, Rule_Line_Length. simpl.
    unfold Rule_Line_Length_apply.
    destruct (Py.len line >? line_length cfg); repeat constructor.
  - rewrite says_Blank_Lines.
    destruct (b && blank line); repeat constructor.
  - unfold says, apply_line, Rule_Line_Tabs. simpl.
    unfold Rule_Line_Tabs_apply.
    destruct (Py.contains_char "009"%char line); repeat constructor.
  - unfold says, apply_line, Rule_Line_Trailing_Whitesapce. simpl.
    unfold Rule_Line_Trailing_Whitesapce_apply.
    destruct (Py.endswith_char " "%char line);
      [destruct (Z.eqb (Py.len (Py.strip line)) 0)|]; repeat constructor.
Qed.

Lemma says_no_surplus_blank cfg filename k k' line rule :
  (rule = Rule_Line_Length
   \/ rule = Rule_Line_Tabs \/ rule = Rule_Line_Trailing_Whitesapce) ->
  ~ In (surplus_blank filename k') (says rule cfg filename k line).
Proof.
  intros [-> | [-> | ->]].
  - unfold says, apply_line, Rule_Line_Length. simpl.
    unfold Rule_Line_Length_apply.
    destruct (Py.len line >? line_length cfg); simpl;
      [intros [H | []]; discriminate H | tauto].
  - unfold says, apply_line, Rule_Line_Tabs. simpl.
    unfold Rule_Line_Tabs_apply.
    destruct (Py.contains_char "009"%char line); simpl;
      [intros [H | []]; discriminate H | tauto].
  - unfold says, apply_line, Rule_Line_Trailing_Whitesapce. simpl.
    unfold Rule_Line_Trailing_Whitesapce_apply.
    destruct (Py.endswith_char " "%char line);
      [destruct (Z.eqb (Py.len (Py.strip line)) 0)|]; simpl;
      try tauto; intros [H | []]; discriminate H.
Qed.

(** The rules on one line: the instances are as before, but for
    [is_blank]; the messages are about this line; and the line is reported
    as a surplus blank line exactly when it is blank and the line before
    it was. *)
Lemma stage_2_line_registry cfg mh filename k line b :
  exists msgs,
    stage_2_line (line_rules cfg b) mh cfg filename k line
    = (line_rules cfg (blank line), (mh ++ msgs)%list)
    /\ Forall (fun m => message_line m = Some k) msgs
    /\ (forall k',
           In (surplus_blank filename k') msgs
           <-> k' = k /\ b = true /\ blank line = true).
Proof.
  assert (forall k',
             In (surplus_blank filename k')
                (says (blank_rule b) cfg filename k line)
             <-> k' = k /\ b = true /\ blank line = true) as Hblank.
  { intros k'. rewrite says_Blank_Lines.
    destruct b, (blank line); simpl; split; try tauto;
      try (intros (_ & H & _); discriminate H);
      try (intros (_ & _ & H); discriminate H).
    - intros [[= <-] | []]. auto.
    - intros (-> & _). left. reflexivity. }
  pose proof (says_no_surplus_blank cfg filename k) as Hother.
  pose proof (says_about_the_line cfg filename k line) as Habout.
  unfold line_rules. destruct (active cfg "line_length");
    cbn [app stage_2_line];
    rewrite ?apply_line_Length, apply_line_Blank_Lines, apply_line_Tabs,
      apply_line_Trailing_Whitesapce;
    rewrite <- ?app_assoc;
    (eexists; split; [reflexivity|]; split;
     [rewrite ?Forall_app; repeat split; apply Habout; eauto 6
     |intros k'; rewrite ?in_app_iff; rewrite Hblank; split;
      [intros H; repeat destruct H as [H | H];
       try exact H; exfalso; revert H; apply Hother; auto
      |auto]]).
Qed.

Lemma ascending_weaken lower lower' l :
  lower' <= lower -> ascending lower l -> ascending lower' l.
Proof.
  intros Hle. destruct l as [|m l]; simpl; [trivial|].
  intros (k & Hk & Hlow & Hrest). exists k. repeat split; try assumption. lia.
Qed.

Lemma ascending_app k msgs l :
  Forall (fun m => message_line m = Some k) msgs ->
  ascending k l -> ascending k (msgs ++ l).
Proof.
  induction 1 as [|m msgs Hm _ IH]; intros Hl; simpl; [exact Hl|].
  exists k. repeat split; [exact Hm | lia | apply IH; exact Hl].
Qed.

(** Stage 2 with the rules of the registry, from line [k] on, the line
    before line [k] blank or not as [b] says. *)
Lemma stage_2_registry cfg filename lines :
  forall mh k b,
  exists new,
    stage_2 (line_rules cfg b) mh cfg filename k lines = (mh ++ new)%list
    /\ ascending k new
    /\ Forall (fun m => exists l, message_line m = Some l
                                  /\ k <= l < k + Z.of_nat (length lines))
              new
    /\ forall i : nat,
        In (surplus_blank filename (k + Z.of_nat i)) new
        <-> exists l,
            lines !! i = Some l /\ blank l = true
            /\ match i with
               | O => b = true
               | S p => exists l', lines !! p = Some l' /\ blank l' = true
               end.
Proof.
  induction lines as [|line lines IH]; intros mh k b.
  - exists []. simpl. repeat split; try constructor.
    + symmetry. apply app_nil_r.
    + intros [].
    + intros (l & H & _). discriminate H.
  - destruct (stage_2_line_registry cfg mh filename k line b)
      as (msgs & Hline & Habout & Hblank).
    destruct (IH (mh ++ msgs)%list (k + 1) (blank line))
      as (new & Hrest & Hasc & Hrange & Hsurplus).
    exists (msgs ++ new)%list. repeat split.
    + cbn [stage_2]. rewrite Hline, Hrest. symmetry. apply app_assoc.
    + apply ascending_app; [exact Habout|].
      eapply ascending_weaken; [|exact Hasc]. lia.
    + apply Forall_app. split.
      * eapply Forall_impl; [exact Habout|]. simpl. intros m Hm.
        exists k. split; [exact Hm | lia].
      * eapply Forall_impl; [exact Hrange|]. simpl.
        intros m (l & Hl & Hb). exists l. split; [exact Hl | lia].
    + intros Hin. apply in_app_iff in Hin as [Hin | Hin].
      * apply Hblank in Hin as (Hk & Hb & Hbl).
        assert (i = O) as -> by lia. exists line. auto.
      * destruct i as [|p].
        -- exfalso. rewrite Forall_forall in Hrange.
           destruct (Hrange _ (proj2 (list_elem_of_In _ _) Hin))
             as (l & Hl & Hb).
           simpl in Hl. injection Hl as <-. lia.
        -- replace (k + Z.of_nat (S p)) with (k + 1 + Z.of_nat p) in Hin
             by lia.
           apply Hsurplus in Hin as (l & Hl & Hbl & Hprev).
           exists l. repeat split; try assumption.
           destruct p as [|q]; [exists line; auto | exact Hprev].
    + intros (l & Hl & Hbl & Hprev). apply in_app_iff.
      destruct i as [|p].
      * left. apply Hblank. simpl in Hl. injection Hl as <-.
        repeat split; try assumption. lia.
      * right. replace (k + Z.of_nat (S p)) with (k + 1 + Z.of_nat p) by lia.
        apply Hsurplus. exists l. repeat split; try assumption.
        destruct p as [|q]; [|exact Hprev].
        destruct Hprev as (l' & Hl' & Hbl'). simpl in Hl'.
        injection Hl' as <-. exact Hbl'.
Qed.

(** Over a whole file, with the rule library built from the registry,
    [consecutive_blanks] reports exactly the blank lines that come right
    after a blank line: line [i + 1] (the lines counted from 1) is
    reported if and only if lines [i] and [i + 1] are both blank.  The
    first line is never reported, and a run of blank lines is reported
    from its second line on. *)
Theorem stage_2_consecutive_blanks (cfg : Config) (mh : Message_Handler)
        (filename : string) (lines : list string) :
  exists new,
    stage_2 (on_line (build_library cfg get_rules)) mh cfg filename 1 lines
    = (mh ++ new)%list
    /\ forall i : nat,
        In (surplus_blank filename (1 + Z.of_nat i)) new
        <-> exists p l' l,
            i = S p /\ lines !! p = Some l' /\ lines !! i = Some l
            /\ blank l' = true /\ blank l = true.
Proof.
  rewrite on_line_get_rules.
  destruct (stage_2_registry cfg filename lines mh 1 false)
    as (new & Hrun & _ & _ & Hsurplus).
  exists new. split; [exact Hrun|]. intros i. rewrite Hsurplus. split.
  - intros (l & Hl & Hbl & Hprev). destruct i as [|p]; [discriminate|].
    destruct Hprev as (l' & Hl' & Hbl'). exists p, l', l. auto.
  - intros (p & l' & l & -> & Hl' & Hl & Hbl' & Hbl).
    exists l. repeat split; try assumption. exists l'. auto.
Qed.

(** Over a whole file, with the rule library built from the registry,
    stage 2 only adds to the message handler, and what it adds are
    messages about lines of the file, in ascending order of line. *)
Theorem stage_2_ascending (cfg : Config) (mh : Message_Handler)
        (filename : string) (lines : list string) :
  exists new,
    stage_2 (on_line (build_library cfg get_rules)) mh cfg filename 1 lines
    = (mh ++ new)%list
    /\ ascending 1 new
    /\ Forall (fun m => exists l, message_line m = Some l
                                  /\ 1 <= l <= Z.of_nat (length lines))
              new.
Proof.
  rewrite on_line_get_rules.
  destruct (stage_2_registry cfg filename lines mh 1 false)
    as (new & Hrun & Hasc & Hrange & _).
  exists new. repeat split; try assumption.
  eapply Forall_impl; [exact Hrange|]. simpl.
  intros m (l & Hl & Hb). exists l. split; [exact Hl | lia].
Qed.

(** ** Stage 3: when the loop cannot raise *)

Lemma string_app_assoc (a b c : string) : (a ++ b) ++ c = a ++ (b ++ c).
Proof. induction a as [|x a IH]; simpl; [reflexivity | rewrite IH; reflexivity]. Qed.

Lemma run_Seq r1 r2 s caps k :
  Re.run (Re.Seq r1 r2) s caps k
  = Re.run r1 s caps (fun s' caps' => Re.run r2 s' caps' k).
Proof. reflexivity. Qed.

(** The matcher calls its continuation on what is left of the text. *)
Lemma run_suffix r :
  forall s caps k res,
    Re.run r s caps k = Some res ->
    exists pre s' caps', s = pre ++ s' /\ k s' caps' = Some res.
Proof.
  induction r as [p| |r1 IH1 r2 IH2|r1 IH1|r1 IH1|name r1 IH1];
    intros s caps k res H.
  - simpl in H. destruct s as [|c s']; [discriminate|].
    destruct (p c); [|discriminate].
    exists (String c ""), s', caps. split; [reflexivity | exact H].
  - simpl in H. exists "", s, caps. split; [reflexivity | exact H].
  - rewrite run_Seq in H.
    apply IH1 in H as (pre1 & s1 & caps1 & -> & H).
    apply IH2 in H as (pre2 & s2 & caps2 & -> & H).
    exists (pre1 ++ pre2), s2, caps2.
    split; [symmetry; apply string_app_assoc | exact H].
  - simpl in H. destruct (Re.run r1 s caps k) as [res'|] eqn:E.
    + injection H as ->. apply IH1 in E. exact E.
    + exists "", s, caps. split; [reflexivity | exact H].
  - assert (forall fuel s caps,
               (fix loop (fuel : nat) (s : string) (caps : Re.captures)
                    {struct fuel} : option Re.captures :=
                  match fuel with
                  | O => k s caps
                  | S fuel' =>
                      match Re.run r1 s caps
                                   (fun s' caps' =>
                                      if (String.length s' <? String.length s)%nat
                                      then loop fuel' s' caps' else None) with
                      | Some res => Some res
                      | None => k s caps
                      end
                  end) fuel s caps = Some res ->
               exists pre s' caps', s = pre ++ s' /\ k s' caps' = Some res)
      as Hloop.
    { induction fuel as [|fuel IHf]; intros s0 caps0 H0.
      - exists "", s0, caps0. split; [reflexivity | exact H0].
      - match type of H0 with
        | match ?X with _ => _ end = _ => destruct X as [res'|] eqn:E
        end.
        + injection H0 as ->.
          apply IH1 in E as (pre1 & s1 & caps1 & -> & E).
          destruct (String.length s1 <? String.length (pre1 ++ s1))%nat;
            [|discriminate].
          apply IHf in E as (pre2 & s2 & caps2 & -> & E).
          exists (pre1 ++ pre2), s2, caps2.
          split; [symmetry; apply string_app_assoc | exact E].
        + exists "", s0, caps0. split; [reflexivity | exact H0]. }
    exact (Hloop (S (String.length s)) s caps H).
  - simpl in H. apply IH1 in H as (pre & s' & caps' & -> & H). eauto.
Qed.

Lemma after_first_app c a b :
  exists rest, Py.after_first c (a ++ String c b) = Some rest.
Proof.
  induction a as [|x a IH]; simpl.
  - rewrite Ascii.eqb_refl. eauto.
  - destruct (Ascii.eqb c x); eauto.
Qed.

(** A text that matches [SPACE_PRAGMA_REGEX] has a hash sign to split
    at. *)
Lemma space_pragma_has_hash s :
  present (Re.match_ SPACE_PRAGMA_REGEX s) = true ->
  exists rest, Py.after_first "#"%char s = Some rest.
Proof.
  unfold Re.match_, SPACE_PRAGMA_REGEX.
  destruct (Re.run _ s [] _) as [res|] eqn:E; [intros _ | discriminate].
  rewrite run_Seq in E. apply run_suffix in E as (pre1 & s1 & caps1 & -> & E).
  rewrite run_Seq in E. apply run_suffix in E as (pre2 & s2 & caps2 & -> & E).
  rewrite run_Seq in E. cbn [Re.run Re.Lit] in E.
  destruct s2 as [|c s2]; [discriminate|].
  destruct (Ascii.eqb_spec "#"%char c) as [<- | _]; [|discriminate].
  rewrite <- string_app_assoc. apply after_first_app.
Qed.

Lemma copyright_comment_consistent cfg token cv :
  header_consistent cv -> header_consistent (copyright_comment cfg token cv).
Proof.
  unfold header_consistent, copyright_comment. intros H.
  repeat case_match; simpl; intros Hg;
    first [discriminate | apply H in Hg; congruence].
Qed.

Lemma copyright_check_returns cfg token st :
  header_consistent (st_copyright st) ->
  exists st',
    copyright_check cfg token st = Returned st'
    /\ header_consistent (st_copyright st')
    /\ st_indent st' = st_indent st.
Proof.
  intros H. unfold copyright_check.
  destruct (in_copyright_notice (st_copyright st));
    [|eexists; split; [reflexivity | split; [exact H | reflexivity]]].
  destruct (String.eqb (kind token) "COMMENT").
  { eexists. split; [reflexivity|]. split; [|reflexivity].
    simpl. apply copyright_comment_consistent, H. }
  repeat case_match;
    try (eexists; split; [reflexivity|]; split; [exact H | reflexivity]).
  exfalso. apply H; assumption.
Qed.

Lemma st_indent_bind o (f : State -> Outcome) c :
  st_indent (state_of o) = c ->
  (forall s, st_indent s = c -> st_indent (state_of (f s)) = c) ->
  st_indent (state_of (bind o f)) = c.
Proof. intros Ho Hf. destruct o as [s | e s]; simpl in *; auto. Qed.

Lemma st_indent_check_comment cfg comment_chars n token nb st :
  st_indent (state_of (check_comment cfg comment_chars n token nb st))
  = st_indent st.
Proof.
  unfold check_comment.
  destruct (active cfg "whitespace_comments"); [|reflexivity].
  destruct (raw_text token); [reflexivity|].
  apply st_indent_bind.
  - repeat case_match; reflexivity.
  - intros st1 Hst1. repeat case_match; simpl; exact Hst1.
Qed.

Lemma st_indent_token_rules cfg comment_chars n token nb st :
  st_indent (state_of (token_rules cfg comment_chars n token nb st))
  = st_indent st.
Proof.
  unfold token_rules.
  repeat case_match; try apply st_indent_check_comment; simpl;
    unfold check_comma, check_colon, check_assignment, check_bra, check_ket,
    check_keyword, check_continuation, check_operator, check_annotation,
    check_newline;
    repeat case_match; reflexivity.
Qed.

Lemma st_indent_dangerous_continuation_check cfg n token nb st :
  st_indent (dangerous_continuation_check cfg n token nb st) = st_indent st.
Proof.
  unfold dangerous_continuation_check. repeat case_match; simplify_eq;
    reflexivity.
Qed.

Lemma st_indent_recognise_justification tok st :
  st_indent (recognise_justification tok st) = st_indent st.
Proof. unfold recognise_justification. repeat case_match; reflexivity. Qed.

Lemma check_comment_returns cfg comment_chars n token nb st :
  raw_text token <> "" ->
  exists st', check_comment cfg comment_chars n token nb st = Returned st'.
Proof.
  intros Htext. unfold check_comment.
  destruct (active cfg "whitespace_comments"); [|eauto].
  destruct (raw_text token) as [|c text] eqn:Hraw; [contradiction|].
  set (body := if present (Re.match_ PRAGMA_REGEX _) then _ else _).
  assert (exists s, body = Returned s) as [s ->].
  { subst body. repeat case_match; eauto.
    match goal with
    | H : present (Re.match_ SPACE_PRAGMA_REGEX _) = true |- _ =>
        apply space_pragma_has_hash in H as [rest H]
    end.
    congruence. }
  simpl. case_match; eauto.
Qed.

Lemma token_rules_returns cfg comment_chars n token nb st :
  comment_has_text token -> anonymous token = false ->
  exists st', token_rules cfg comment_chars n token nb st = Returned st'.
Proof.
  intros Htext Hanon. unfold token_rules. repeat case_match; eauto.
  apply check_comment_returns, Htext; [|exact Hanon].
  apply String.eqb_eq. assumption.
Qed.

Lemma indentation_check_returns cfg n token st :
  first_in_statement token = true
  \/ statement_start_token (st_indent st) <> None ->
  exists st',
    indentation_check cfg n token st = Returned st'
    /\ st_copyright st' = st_copyright st
    /\ statement_start_token (st_indent st')
       = statement_start_token (st_indent st).
Proof.
  intros H. unfold indentation_check.
  repeat case_match; simplify_eq; eauto.
  destruct H as [H | H]; congruence.
Qed.

Lemma track_statement_started token iv :
  first_in_statement token = true \/ statement_start_token iv <> None ->
  statement_start_token (track_statement token iv) <> None.
Proof.
  unfold track_statement. intros [H | H].
  - rewrite H. simpl. discriminate.
  - destruct (first_in_statement token); simpl; [discriminate | exact H].
Qed.

(** The turn of a token returns when the variables it reads are there. *)
Lemma iteration_returns cfg comment_chars n st token :
  st_tokens st !! n = Some token ->
  comment_has_text token ->
  first_in_statement token = true
  \/ statement_start_token (st_indent st) <> None ->
  header_consistent (st_copyright st) ->
  exists st',
    iteration cfg comment_chars n st = Returned st'
    /\ header_consistent (st_copyright st')
    /\ statement_start_token (st_indent st') <> None.
Proof.
  intros Hn Htext Hstart Hcv.
  pose proof (track_statement_started token (st_indent st) Hstart) as Htrack.
  unfold iteration. rewrite Hn.
  set (st0 := recognise_justification
                token
                (with_indent (track_statement token (st_indent st)) st)).
  assert (st_copyright st0 = st_copyright st) as Hc0
      by (subst st0; rewrite st_copyright_recognise_justification;
          reflexivity).
  assert (st_indent st0 = track_statement token (st_indent st)) as Hi0
      by (subst st0; rewrite st_indent_recognise_justification;
          reflexivity).
  destruct (anonymous token) eqn:Hanon.
  { exists st0. split; [reflexivity|]. rewrite Hc0, Hi0. auto. }
  destruct (copyright_check_returns cfg token st0) as (st1 & -> & Hc1 & Hi1);
    [rewrite Hc0; exact Hcv|].
  simpl bind.
  destruct (token_rules_returns
              cfg comment_chars n token
              (neighbours (st_tokens st) n token) st1 Htext Hanon)
    as (st2 & Hrules).
  pose proof (st_copyright_token_rules
                cfg comment_chars n token
                (neighbours (st_tokens st) n token) st1) as Hc2.
  pose proof (st_indent_token_rules
                cfg comment_chars n token
                (neighbours (st_tokens st) n token) st1) as Hi2.
  rewrite Hrules in *. simpl in Hc2, Hi2. simpl bind.
  destruct (indentation_check_returns
              cfg n token
              (dangerous_continuation_check
                 cfg n token (neighbours (st_tokens st) n token) st2))
    as (st3 & -> & Hc3 & Hi3).
  { right. rewrite st_indent_dangerous_continuation_check, Hi2, Hi1, Hi0.
    exact Htrack. }
  exists st3. split; [reflexivity|]. split.
  - rewrite Hc3, st_copyright_dangerous_continuation_check, Hc2. exact Hc1.
  - rewrite Hi3, st_indent_dangerous_continuation_check, Hi2, Hi1, Hi0.
    exact Htrack.
Qed.

Lemma flagged_at_most_has_text t t' :
  flagged_at_most t t' -> comment_has_text t -> comment_has_text t'.
Proof. intros [-> | ->]; intros H; exact H. Qed.

Lemma iterations_return cfg comment_chars len :
  forall (a : nat) st,
    (forall j t,
        (a <= j)%nat -> st_tokens st !! j = Some t -> comment_has_text t) ->
    statement_started a st ->
    header_consistent (st_copyright st) ->
    exists st', iterations cfg comment_chars (seq a len) st = Returned st'.
Proof.
  induction len as [|len IH]; intros a st Htext Hstart Hcv; simpl; [eauto|].
  destruct (st_tokens st !! a) as [token|] eqn:Ha.
  - destruct (iteration_returns cfg comment_chars a st token Ha)
      as (st1 & Hit & Hcv1 & Hstart1); [eapply Htext; eauto | | exact Hcv |].
    { destruct Hstart as [Hnil | [[-> Hfirst] | Hsst]].
      - rewrite Hnil in Ha. discriminate.
      - left. apply Hfirst. exact Ha.
      - right. exact Hsst. }
    pose proof (iteration_frames_any cfg comment_chars a st) as F.
    rewrite Hit in *. simpl in F. simpl bind.
    apply IH; [|right; right; exact Hstart1 | exact Hcv1].
    intros j t Hj Hjt.
    destruct (Nat.eq_dec j (S a)) as [-> | HS].
    + pose proof (frames_next _ _ _ _ _ _ F) as Hnext.
      rewrite Hjt in Hnext. unfold both in Hnext.
      destruct (st_tokens st !! S a) as [t0|] eqn:H0; [|contradiction].
      eapply flagged_at_most_has_text; [exact Hnext|].
      eapply Htext; [|exact H0]. lia.
    + rewrite (frames_other _ _ _ _ _ _ _ F) in Hjt by lia.
      eapply Htext; [|exact Hjt]. lia.
  - assert (iteration cfg comment_chars a st = Returned st) as ->
        by (unfold iteration; rewrite Ha; reflexivity).
    simpl bind. apply IH; [| |exact Hcv].
    + intros j t Hj. apply Htext. lia.
    + destruct Hstart as [Hnil | [[-> Hfirst] | Hsst]].
      * left. exact Hnil.
      * left. destruct (st_tokens st); [reflexivity | discriminate].
      * right. right. exact Hsst.
Qed.

(** Stage 3 returns, whatever the configuration, on every token buffer in
    which each comment that is not anonymous has a raw text and the first
    token starts a statement: the three places where the loop could raise
    (the first character of an empty comment, the split at a hash sign
    that is not there, a copyright or statement token that was never
    seen) are out of reach on such a buffer. *)
Theorem stage_3_returns (mh : Message_Handler) (cfg : Config)
        (tbuf : Token_Buffer) (is_embedded : bool) :
  Forall comment_has_text (tokens tbuf) ->
  (forall t, tokens tbuf !! O = Some t -> first_in_statement t = true) ->
  exists st, stage_3_analysis mh cfg tbuf is_embedded = Returned st.
Proof.
  intros Htext Hfirst. unfold stage_3_analysis.
  apply iterations_return.
  - intros j t _ Hj. rewrite Forall_forall in Htext. apply Htext.
    eapply list_elem_of_lookup_2. exact Hj.
  - right. left. split; [reflexivity | exact Hfirst].
  - intros H. discriminate H.
Qed.

Lemma stage_3_returns_witness :
  exists st,
    stage_3_analysis [] (cfg_only ["whitespace_comments"; "indentation";
                                   "copyright_notice"] ["ACME"])
                     pragma_buffer false
    = Returned st.
Proof.
  apply stage_3_returns.
  - repeat constructor. intros _ _ H. discriminate H.
  - intros t H. injection H as <-. reflexivity.
Defined.

(** ** Stage 2: the span of [trailing_whitespace] *)

Lemma rstrip_with_split p s :
  exists t,
    s = Py.rstrip_with p s ++ t
    /\ forall c, In c (list_ascii_of_string t) -> p c = true.
Proof.
  induction s as [|c s IH]; simpl.
  - exists "". split; [reflexivity | intros c []].
  - destruct IH as (t & Hs & Ht).
    destruct (Py.rstrip_with p s) as [|d r] eqn:E.
    + simpl in Hs. subst t. destruct (p c) eqn:Hc.
      * exists (String c s). split; [reflexivity|].
        intros x [<- | Hx]; [exact Hc | apply Ht, Hx].
      * exists s. split; [reflexivity | exact Ht].
    + exists t. split; [|exact Ht]. simpl. rewrite Hs at 1. reflexivity.
Qed.

Lemma rstrip_with_last p s c :
  Py.last (Py.rstrip_with p s) = Some c -> p c = false.
Proof.
  induction s as [|d s IH]; simpl; [discriminate|].
  destruct (Py.rstrip_with p s) as [|e r] eqn:E.
  - destruct (p d) eqn:Hd; simpl; [discriminate|].
    intros [= <-]. exact Hd.
  - intros H. apply IH. exact H.
Qed.

Lemma lstrip_with_all p s :
  (forall c, In c (list_ascii_of_string s) -> p c = true) ->
  Py.lstrip_with p s = "".
Proof.
  induction s as [|c s IH]; simpl; intros H; [reflexivity|].
  rewrite (H c) by (left; reflexivity). apply IH. intros x Hx. apply H.
  right. exact Hx.
Qed.

Lemma last_append s t : t <> "" -> Py.last (s ++ t) = Py.last t.
Proof.
  intros Ht. induction s as [|c s IH]; simpl; [reflexivity|].
  destruct (s ++ t) as [|d u] eqn:E; [|exact IH].
  destruct s; simpl in E; [contradiction | discriminate].
Qed.

Lemma string_app_nil_r s : s ++ "" = s.
Proof. induction s as [|c s IH]; simpl; [|rewrite IH]; reflexivity. Qed.

Lemma len_append s t : Py.len (s ++ t) = Py.len s + Py.len t.
Proof.
  unfold Py.len. induction s as [|c s IH]; simpl String.length; [simpl; lia|].
  rewrite !Nat2Z.inj_succ. lia.
Qed.

(** On a line that ends in a space and is not blank, [trailing_whitespace]
    reports one span, and the span is the whitespace at the end of the
    line: it starts after a character that is not whitespace, it is not
    empty, it ends with the line, and all that is in it is whitespace. *)
Theorem trailing_whitespace_span (cfg : Config) (file : string) (k : Z)
        (text : string) :
  Py.endswith_char " "%char text = true ->
  blank text = false ->
  exists loc kept ws c,
    says Rule_Line_Trailing_Whitesapce cfg file k text
    = [Style_issue (At loc) "trailing whitespace" (Some true)]
    /\ filename loc = file /\ line loc = k
    /\ text = kept ++ ws
    /\ col_start loc = Py.len kept /\ col_end loc = Py.len text
    /\ 0 < col_start loc < col_end loc
    /\ Py.last kept = Some c /\ Py.isspace c = false
    /\ forall x, In x (list_ascii_of_string ws) -> Py.isspace x = true.
Proof.
  intros Hend Hblank.
  destruct (rstrip_with_split Py.isspace text) as (ws & Hsplit & Hws).
  fold (Py.rstrip text) in Hsplit.
  assert (Py.rstrip text <> "") as Hkept.
  { intros E. rewrite E in Hsplit. simpl in Hsplit. subst ws.
    unfold blank, Py.strip, Py.lstrip in Hblank.
    rewrite (lstrip_with_all _ _ Hws) in Hblank. discriminate Hblank. }
  assert (ws <> "") as Hne.
  { intros ->. rewrite string_app_nil_r in Hsplit.
    unfold Py.endswith_char in Hend. rewrite Hsplit in Hend.
    destruct (Py.last (Py.rstrip text)) as [d|] eqn:Hd; [|discriminate].
    apply rstrip_with_last in Hd. apply Ascii.eqb_eq in Hend. subst d.
    discriminate Hd. }
  destruct (Py.last (Py.rstrip text)) as [c|] eqn:Hc.
  2: { destruct (Py.rstrip text) as [|d [|e r]]; simpl in Hc;
       [contradiction | discriminate |].
       exfalso. revert Hc. clear. revert e.
       induction r as [|x r IH]; intros e; simpl; [discriminate|].
       apply IH. }
  exists (mkLocation file k (Py.len (Py.rstrip text)) (Py.len text) text),
    (Py.rstrip text), ws, c.
  split.
  { unfold says, apply_line. simpl.
    unfold Rule_Line_Trailing_Whitesapce_apply. rewrite Hend.
    unfold blank in Hblank. rewrite Hblank. reflexivity. }
  simpl. repeat split; try assumption; try reflexivity.
  - assert (Py.len (Py.rstrip text) <> 0) by (rewrite len_zero; exact Hkept).
    unfold Py.len in *. lia.
  - rewrite Hsplit at 2. rewrite len_append.
    assert (Py.len ws <> 0) by (rewrite len_zero; exact Hne).
    unfold Py.len in *. lia.
  - apply rstrip_with_last in Hc. exact Hc.
Qed.

Lemma trailing_whitespace_span_witness :
  exists loc kept ws c,
    says Rule_Line_Trailing_Whitesapce (cfg_only [] []) "f.m" 3 "x = 1;  "
    = [Style_issue (At loc) "trailing whitespace" (Some true)]
    /\ filename loc = "f.m" /\ line loc = 3
    /\ "x = 1;  " = kept ++ ws
    /\ col_start loc = Py.len kept /\ col_end loc = Py.len "x = 1;  "
    /\ 0 < col_start loc < col_end loc
    /\ Py.last kept = Some c /\ Py.isspace c = false
    /\ forall x, In x (list_ascii_of_string ws) -> Py.isspace x = true.
Proof.
  apply (trailing_whitespace_span (cfg_only [] []) "f.m" 3 "x = 1;  ");
    reflexivity.
Defined.

(** ** Stage 3: the justifications *)

Lemma justifications_app l1 l2 :
  justifications (l1 ++ l2) = (justifications l1 ++ justifications l2)%list.
Proof. unfold justifications. apply flat_map_app. Qed.

Lemma justifications_issues l : Forall is_issue l -> justifications l = [].
Proof.
  induction 1 as [|m l Hm _ IH]; [reflexivity|].
  destruct m; simpl in *; [exact IH | contradiction | contradiction].
Qed.

(** What follows the recognition of justifications in a turn of the loop
    only reports style issues. *)
Lemma rest_of_iteration_issues cfg comment_chars n token nb st :
  frames is_issue any_setter true n st
         (state_of
            (bind (copyright_check cfg token st) (fun st =>
             bind (token_rules cfg comment_chars n token nb st) (fun st =>
             indentation_check
               cfg n token
               (dangerous_continuation_check cfg n token nb st))))).
Proof.
  apply frames_bind.
  - apply copyright_check_frames; intros; exact I.
  - intros s Hs. apply frames_bind.
    + eapply frames_trans; [exact Hs|].
      apply token_rules_frames; intros; exact I.
    + intros s2 Hs2. eapply frames_trans; [exact Hs2|].
      eapply frames_trans.
      * apply dangerous_continuation_check_frames; intros; exact I.
      * apply indentation_check_frames; intros; exact I.
Qed.

(** The turn of a token registers the token if it is marked, and no
    other. *)
Lemma iteration_justifications cfg comment_chars n st token :
  st_tokens st !! n = Some token ->
  exists new,
    st_mh (state_of (iteration cfg comment_chars n st))
    = (st_mh st ++ new)%list
    /\ justifications new = if marked token then [token] else [].
Proof.
  intros Hn.
  set (st0 := recognise_justification
                token
                (with_indent (track_statement token (st_indent st)) st)).
  assert (st_mh st0
          = (st_mh st
               ++ if marked token then [Justification token] else [])%list)
    as H0.
  { subst st0. unfold recognise_justification, marked.
    destruct (String.eqb (kind token) "COMMENT"
              || String.eqb (kind token) "CONTINUATION");
      [destruct (Py.contains "mh:ignore_style" (value token))|];
      simpl; first [reflexivity | symmetry; apply app_nil_r]. }
  unfold iteration. rewrite Hn. fold st0.
  destruct (anonymous token).
  - simpl. eexists. split; [exact H0|]. destruct (marked token); reflexivity.
  - destruct (frames_mh
                _ _ _ _ _ _
                (rest_of_iteration_issues
                   cfg comment_chars n token
                   (neighbours (st_tokens st) n token) st0))
      as (rest & Hrest & Hissues).
    eexists. split; [rewrite Hrest, H0, <- app_assoc; reflexivity|].
    rewrite justifications_app, (justifications_issues _ Hissues), app_nil_r.
    destruct (marked token); reflexivity.
Qed.

Lemma flagged_at_most_marked t t' :
  flagged_at_most t t' -> marked t' = marked t.
Proof. intros [-> | ->]; reflexivity. Qed.

Lemma iterations_justifications cfg comment_chars tokens0 len :
  forall (a : nat) st final,
    both flagged_at_most (tokens0 !! a) (st_tokens st !! a) ->
    (forall j, (a < j)%nat -> st_tokens st !! j = tokens0 !! j) ->
    iterations cfg comment_chars (seq a len) st = Returned final ->
    exists new,
      st_mh final = (st_mh st ++ new)%list
      /\ Forall2 flagged_at_most
                 (List.filter marked (take len (drop a tokens0)))
                 (justifications new).
Proof.
  induction len as [|len IH]; intros a st final Ha Hafter Hrun.
  - simpl in Hrun. injection Hrun as <-. exists [].
    split; [symmetry; apply app_nil_r | constructor].
  - simpl in Hrun. apply bind_Returned in Hrun as (st1 & Hturn & Hrun).
    pose proof (iteration_frames_any cfg comment_chars a st) as F.
    rewrite Hturn in F. simpl in F.
    assert (both flagged_at_most (tokens0 !! S a) (st_tokens st1 !! S a))
      as Ha1.
    { rewrite <- Hafter by lia. eapply frames_next. exact F. }
    assert (forall j, (S a < j)%nat -> st_tokens st1 !! j = tokens0 !! j)
      as Hafter1.
    { intros j Hj. rewrite (frames_other _ _ _ _ _ _ _ F) by lia.
      apply Hafter. lia. }
    destruct (IH (S a) st1 final Ha1 Hafter1 Hrun) as (new2 & Hmh2 & Hj2).
    unfold both in Ha.
    destruct (tokens0 !! a) as [t0|] eqn:Ht0;
      destruct (st_tokens st !! a) as [token|] eqn:Htok; try contradiction.
    + destruct (iteration_justifications cfg comment_chars a st token Htok)
        as (new1 & Hmh1 & Hj1).
      rewrite Hturn in Hmh1. simpl in Hmh1.
      exists (new1 ++ new2)%list. split.
      * rewrite Hmh2, Hmh1. symmetry. apply app_assoc.
      * rewrite justifications_app, Hj1, (drop_S _ _ _ Ht0).
        simpl. rewrite <- (flagged_at_most_marked _ _ Ha).
        destruct (marked token); simpl; [constructor; assumption | exact Hj2].
    + assert (st1 = st) as ->.
      { unfold iteration in Hturn. rewrite Htok in Hturn. congruence. }
      exists new2. split; [exact Hmh2|].
      rewrite drop_ge by (apply lookup_ge_None; exact Ht0).
      rewrite drop_ge in Hj2
          by (apply lookup_ge_None in Ht0; lia).
      rewrite take_nil in *. exact Hj2.
Qed.

(** When stage 3 returns, the tokens it has registered as justifications
    are, in the order of the buffer and one each, the comments and
    continuations whose value contains [mh:ignore_style], the anonymous
    ones among them too; a registered token is the token of the buffer,
    with [replace_with_newline] set if the token before it asked for
    that. *)
Theorem stage_3_justifications (mh : Message_Handler) (cfg : Config)
        (tbuf : Token_Buffer) (is_embedded : bool) (final : State) :
  stage_3_analysis mh cfg tbuf is_embedded = Returned final ->
  exists new,
    st_mh final = (mh ++ new)%list
    /\ Forall2 flagged_at_most
               (List.filter marked (tokens tbuf))
               (justifications new).
Proof.
  intros Hrun. unfold stage_3_analysis in Hrun.
  apply (iterations_justifications _ _ (tokens tbuf)) in Hrun.
  - rewrite drop_0, firstn_all in Hrun. exact Hrun.
  - apply both_refl. intros t. left. reflexivity.
  - reflexivity.
Qed.

Lemma stage_3_justifications_witness :
  exists new,
    st_mh (state_of (stage_3_analysis
                       [] (cfg_only ["whitespace_comments"] [])
                       justified_buffer false))
    = ([] ++ new)%list
    /\ Forall2 flagged_at_most
               (List.filter marked (tokens justified_buffer))
               (justifications new).
Proof.
  apply (stage_3_justifications
           [] (cfg_only ["whitespace_comments"] []) justified_buffer false
           (state_of (stage_3_analysis
                        [] (cfg_only ["whitespace_comments"] [])
                        justified_buffer false))).
  reflexivity.
Defined.
